(** * Structural-motif search submission (src/viewer/ui/strucmotif.tsx)

    A shallow embedding of the query construction and residue bookkeeping
    of the [SubmitControls] component and of the [Residue] class, and the
    properties of them that the specification states. *)

From Stdlib Require Import ZArith QArith Lqa String Ascii List Lia DecimalString.
From Stdlib Require Import Sorting.Sorted Sorting.Permutation OrderedTypeEx.
From stdpp Require Import base option list gmap strings sorting.

Local Open Scope Z_scope.

(** ** The host: Mol* and the JavaScript built-ins the component calls

    None of this is code of the repository.  The structure model, the
    property accessors of [StructureProperties] and the collation of
    [String.prototype.localeCompare] are taken as an interface. *)

Class Host := {
  Structure : Type;
  Unit : Type;
  OrderedSet : Type;
  UnitIndex : Type;
  ElementIndex : Type;
  (** [structure.model.entry] *)
  model_entry : Structure -> string;
  (** [OrderedSet.getAt(set, i)] *)
  OrderedSet_getAt : OrderedSet -> nat -> UnitIndex;
  (** [unit.elements[i]] *)
  unit_elements : Unit -> UnitIndex -> ElementIndex;
  (** [StructureProperties.unit.pdbx_struct_oper_list_ids]; [None] is
      [undefined] *)
  pdbx_struct_oper_list_ids :
    Structure -> Unit -> ElementIndex -> option (list string);
  (** [StructureProperties.chain.label_asym_id] *)
  label_asym_id : Structure -> Unit -> ElementIndex -> string;
  (** [StructureProperties.residue.label_seq_id] *)
  label_seq_id : Structure -> Unit -> ElementIndex -> Z;
  (** [StructureProperties.atom.label_comp_id] *)
  label_comp_id : Structure -> Unit -> ElementIndex -> string;
  (** [a.localeCompare(b)]: negative, zero or positive *)
  localeCompare : string -> string -> Z
}.

(** What the sort needs of the collation: it is a strict total order on
    the identifiers it compares. *)
Class CollationLaws (H : Host) : Prop := {
  localeCompare_zero : forall a b, localeCompare a b = 0 -> a = b;
  localeCompare_antisym : forall a b, localeCompare a b < 0 <-> 0 < localeCompare b a;
  localeCompare_trans : forall a b c,
    localeCompare a b < 0 -> localeCompare b c < 0 -> localeCompare a c < 0
}.

(** ** JavaScript [Set<string>]: members in insertion order *)

Module JSSet.

Definition t := list string.

Definition empty : t := [].

Definition has (s : t) (v : string) : bool := existsb (String.eqb v) s.

(** [s.add(v)]: appended when absent, no change when present *)
Definition add (s : t) (v : string) : t :=
  if has s v then s else s ++ [v].

(** [s.delete(v)] *)
Definition delete (s : t) (v : string) : t :=
  List.filter (fun x => negb (String.eqb v x)) s.

Definition size (s : t) : nat := length s.

(** [s.values()], in insertion order *)
Definition values (s : t) : list string := s.

(** [s.values().next().value]; [None] is [undefined] *)
Definition first (s : t) : option string := head s.

End JSSet.

(** ** [Array.prototype.sort]

    The built-in sort of the host.  ECMAScript makes it a stable sort by
    the comparator; it is an insertion sort here, which keeps the earlier
    of two elements the comparator does not separate in front. *)

Section ArraySort.
Context {A : Type} (compareFn : A -> A -> Z).

Fixpoint sort_insert (x : A) (l : list A) : list A :=
  match l with
  | [] => [x]
  | y :: l' => if compareFn x y <=? 0 then x :: y :: l' else y :: sort_insert x l'
  end.

Fixpoint Array_sort (l : list A) : list A :=
  match l with
  | [] => []
  | x :: l' => sort_insert x (Array_sort l')
  end.

(** [a] may stand before [b] in a sorted array. *)
Definition sorted_before (a b : A) : Prop := compareFn a b <= 0.
End ArraySort.

(** ** Data model *)

Definition MIN_MOTIF_SIZE : nat := 3.
Definition MAX_MOTIF_SIZE : nat := 10.

Definition string_of_nat (n : nat) : string :=
  NilZero.string_of_uint (Nat.to_uint n).

Record ResidueSelection := {
  rs_label_asym_id : string;
  rs_struct_oper_id : string;
  rs_label_seq_id : Z
}.

Record Exchange := {
  residue_id : ResidueSelection;
  allowed : list string
}.

Record QueryValue := {
  data : option string;
  residue_ids : list ResidueSelection
}.

Record QueryParameters := {
  value : QueryValue;
  score_cutoff : Z;
  exchanges : list Exchange
}.

Record Query := {
  q_type : string;
  service : string;
  parameters : QueryParameters
}.

(** What a call of [submitSearch] does: warn on the plugin log and return,
    log the query and open the search URL built from it, or die on an
    uncaught [TypeError]. *)
Inductive Outcome :=
| Warned (msg : string)
| Opened (query : Query)
| TypeError.

Section Component.
Context `{H : Host}.

Record LociElement := {
  el_unit : Unit;
  el_indices : OrderedSet
}.

Record Loci := {
  loci_structure : Structure;
  loci_elements : list LociElement
}.

(** [StructureSelectionHistoryEntry].  The component keys its map by the
    entry object; Mol* gives every entry object its own [id], which
    stands for the object's identity here. *)
Record StructureSelectionHistoryEntry := {
  entry_id : string;
  entry_loci : Loci;
  entry_label : string
}.

(** The module-level [location], as [StructureElement.Location.set]
    leaves it. *)
Record Location := {
  loc_structure : Structure;
  loc_unit : Unit;
  loc_element : ElementIndex
}.

(** [StructureElement.Location.set(location, structure, e.unit,
    e.unit.elements[OrderedSet.getAt(e.indices, 0)])] for the first
    element [e] of the loci; [None] when [elements[0]] is [undefined] and
    [e.unit] throws. *)
Definition Location_set (loci : Loci) : option Location :=
  match loci_elements loci with
  | [] => None
  | e :: _ =>
      Some {| loc_structure := loci_structure loci;
              loc_unit := el_unit e;
              loc_element :=
                unit_elements (el_unit e) (OrderedSet_getAt (el_indices e) 0) |}
  end.

(** The class [Residue]; [parent] is only used to request a re-render. *)
Record Residue := {
  entry : StructureSelectionHistoryEntry;
  res_exchanges : JSSet.t
}.

(** [new Residue(entry, parent)] *)
Definition Residue_new (entry : StructureSelectionHistoryEntry) : option Residue :=
  match Location_set (entry_loci entry) with
  | None => None
  | Some location =>
      Some {| entry := entry;
              res_exchanges :=
                JSSet.add JSSet.empty
                  (label_comp_id (loc_structure location) (loc_unit location)
                                 (loc_element location)) |}
  end.

Definition hasExchange (r : Residue) (val : string) : bool :=
  JSSet.has (res_exchanges r) val.

(** [toggleExchange]; the [forceUpdate] of the parent that follows
    re-renders and leaves the set alone. *)
Definition toggleExchange (r : Residue) (val : string) : Residue :=
  if hasExchange r val
  then {| entry := entry r; res_exchanges := JSSet.delete (res_exchanges r) val |}
  else {| entry := entry r; res_exchanges := JSSet.add (res_exchanges r) val |}.

(** [state.residueMap]: a key can hold [undefined] ([Some None]). *)
Abbreviation ResidueMap := (gmap string (option Residue)).

Definition Map_has (m : ResidueMap) (l : StructureSelectionHistoryEntry) : bool :=
  bool_decide (is_Some (m !! entry_id l)).

Definition Map_get (m : ResidueMap) (l : StructureSelectionHistoryEntry)
  : option Residue :=
  match m !! entry_id l with
  | Some v => v
  | None => None
  end.

Definition Map_set (m : ResidueMap) (l : StructureSelectionHistoryEntry)
    (v : option Residue) : ResidueMap :=
  <[entry_id l := v]> m.

(** *** [submitSearch] *)

(** The [residueId] object literal of the loop body. *)
Definition residueId_at (location : Location) : ResidueSelection :=
  let struct_oper_list_ids :=
    pdbx_struct_oper_list_ids (loc_structure location) (loc_unit location)
                              (loc_element location) in
  {| rs_label_asym_id :=
       label_asym_id (loc_structure location) (loc_unit location)
                     (loc_element location);
     rs_struct_oper_id :=
       match struct_oper_list_ids with
       | Some (id :: ids) => String.concat "x" (id :: ids)
       | _ => "1"%string
       end;
     rs_label_seq_id :=
       label_seq_id (loc_structure location) (loc_unit location)
                    (loc_element location) |}.

Record Collected := {
  pdbId : JSSet.t;
  residueIds : list ResidueSelection;
  c_exchanges : list Exchange
}.

Definition collected_init : Collected :=
  {| pdbId := JSSet.empty; residueIds := []; c_exchanges := [] |}.

(** One turn of the [for] loop; [None] when it throws. *)
Definition collect_step (residueMap : ResidueMap) (acc : Collected)
    (l : StructureSelectionHistoryEntry) : option Collected :=
  let structure := loci_structure (entry_loci l) in
  let pdbId' := JSSet.add (pdbId acc) (model_entry structure) in
  match Location_set (entry_loci l) with
  | None => None
  | Some location =>
      let residueId := residueId_at location in
      let residueIds' := residueIds acc ++ [residueId] in
      match Map_get residueMap l with
      | None => None
      | Some residueMapEntry =>
          Some {| pdbId := pdbId';
                  residueIds := residueIds';
                  c_exchanges :=
                    if (0 <? JSSet.size (res_exchanges residueMapEntry))%nat
                    then c_exchanges acc ++
                           [{| residue_id := residueId;
                               allowed := JSSet.values (res_exchanges residueMapEntry) |}]
                    else c_exchanges acc |}
      end
  end.

(** The loop over [loci[0]], ..., [loci[n-1]]. *)
Fixpoint collect (residueMap : ResidueMap) (acc : Collected)
    (ls : list StructureSelectionHistoryEntry) : option Collected :=
  match ls with
  | [] => Some acc
  | l :: ls' =>
      match collect_step residueMap acc l with
      | None => None
      | Some acc' => collect residueMap acc' ls'
      end
  end.

(** The entries the loop visits: [i < Math.min(MAX_MOTIF_SIZE, loci.length)]. *)
Definition considered (loci : list StructureSelectionHistoryEntry)
  : list StructureSelectionHistoryEntry :=
  take (Nat.min MAX_MOTIF_SIZE (length loci)) loci.

Definition sortResidueIds (a b : ResidueSelection) : Z :=
  if negb (String.eqb (rs_label_asym_id a) (rs_label_asym_id b)) then
    localeCompare (rs_label_asym_id a) (rs_label_asym_id b)
  else if negb (String.eqb (rs_struct_oper_id a) (rs_struct_oper_id b)) then
    localeCompare (rs_struct_oper_id a) (rs_struct_oper_id b)
  else
    if rs_label_seq_id a <? rs_label_seq_id b then -1
    else if rs_label_seq_id a >? rs_label_seq_id b then 1 else 0.

Definition WARN_MULTI_MODEL : string :=
  "Motifs can only be extracted from a single model!".
Definition WARN_MAX_SIZE : string :=
  "Maximum motif size is " ++ string_of_nat MAX_MOTIF_SIZE ++ " residues!".
Definition WARN_NON_POLYMERIC : string :=
  "Selections may only contain polymeric entities!".

Definition build_query (c : Collected) : Query :=
  {| q_type := "terminal";
     service := "strucmotif";
     parameters :=
       {| value :=
            {| data := JSSet.first (pdbId c);
               residue_ids := Array_sort sortResidueIds (residueIds c) |};
          score_cutoff := 0;
          exchanges := c_exchanges c |} |}.

Definition submitSearch (residueMap : ResidueMap)
    (additionsHistory : list StructureSelectionHistoryEntry) : Outcome :=
  let loci := additionsHistory in
  match collect residueMap collected_init (considered loci) with
  | None => TypeError
  | Some c =>
      if (1 <? JSSet.size (pdbId c))%nat then Warned WARN_MULTI_MODEL
      else if (MAX_MOTIF_SIZE <? length (residueIds c))%nat then Warned WARN_MAX_SIZE
      else if (0 <? length (List.filter (fun v => (rs_label_seq_id v =? 0)%Z)
                                        (residueIds c)))%nat
           then Warned WARN_NON_POLYMERIC
      else Opened (build_query c)
  end.

(** *** The submit menu item of [actions] *)

Record ActionItem := {
  item_label : string;
  item_disabled : bool
}.

Definition actions (history : list StructureSelectionHistoryEntry) : ActionItem :=
  {| item_label :=
       "Submit Search " ++
       (if (length history <? MIN_MOTIF_SIZE)%nat
        then " (" ++ string_of_nat MIN_MOTIF_SIZE ++ " selections required)"
        else "");
     item_disabled := (length history <? MIN_MOTIF_SIZE)%nat |}.

(** *** [updateResidues] and the bookkeeping of [add] *)

Definition updateResidues (residueMap : ResidueMap)
    (additionsHistory : list StructureSelectionHistoryEntry) : ResidueMap :=
  foldl (fun newResidueMap entry =>
           Map_set newResidueMap entry (Map_get residueMap entry))
        ∅ additionsHistory.

(** A rendered row of [historyEntry(e, idx)]: its React key [e.entry.id],
    its number and the residue handed to the exchange panel. *)
Record HistoryRow := {
  row_key : string;
  row_idx : nat;
  row_residue : Residue
}.

(** [historyEntry]; reading [e.entry] of [undefined] throws. *)
Definition historyEntry (e : option Residue) (idx : nat) : option HistoryRow :=
  match e with
  | None => None
  | Some r => Some {| row_key := entry_id (entry r); row_idx := idx; row_residue := r |}
  end.

(** One turn of the loop of [add]: the map as the turn leaves it and the
    row it pushes, [None] when the turn throws. *)
Definition add_step (residueMap : ResidueMap) (l : StructureSelectionHistoryEntry)
    (i : nat) : ResidueMap * option HistoryRow :=
  if Map_has residueMap l then
    (residueMap, historyEntry (Map_get residueMap l) (i + 1))
  else
    match Residue_new l with
    | None => (residueMap, None)
    | Some residue =>
        (Map_set residueMap l (Some residue), historyEntry (Some residue) (i + 1))
    end.

Fixpoint add_loop (residueMap : ResidueMap) (ls : list StructureSelectionHistoryEntry)
    (i : nat) (entries : list HistoryRow) : ResidueMap * option (list HistoryRow) :=
  match ls with
  | [] => (residueMap, Some entries)
  | l :: ls' =>
      match add_step residueMap l i with
      | (residueMap', None) => (residueMap', None)
      | (residueMap', Some row) => add_loop residueMap' ls' (S i) (entries ++ [row])
      end
  end.

(** [add]: the map is updated in place while rendering, so it keeps the
    keys set before a turn throws. *)
Definition add (residueMap : ResidueMap)
    (history : list StructureSelectionHistoryEntry)
  : ResidueMap * option (list HistoryRow) :=
  add_loop residueMap (take (Nat.min (length history) 10) history) 0%nat [].

(** *** Vocabulary of the properties *)

(** The model entry id an entry resolves to. *)
Definition entry_model (l : StructureSelectionHistoryEntry) : string :=
  model_entry (loci_structure (entry_loci l)).

(** The residue selection an entry resolves to. *)
Definition resolve (l : StructureSelectionHistoryEntry) : option ResidueSelection :=
  residueId_at <$> Location_set (entry_loci l).

(** The native residue type of an entry: [label_comp_id] at the first
    index of the first element of its loci. *)
Definition native_type (l : StructureSelectionHistoryEntry) : option string :=
  (fun location =>
     label_comp_id (loc_structure location) (loc_unit location) (loc_element location))
    <$> Location_set (entry_loci l).

(** The map holds a [Residue] for the entry. *)
Definition tracked (m : ResidueMap) (l : StructureSelectionHistoryEntry) : Prop :=
  is_Some (Map_get m l).

(** The loci of the entry have a first element. *)
Definition resolvable (l : StructureSelectionHistoryEntry) : Prop :=
  is_Some (Location_set (entry_loci l)).

(** What the loop of [submitSearch] needs of an entry to get past it. *)
Definition ready (m : ResidueMap) (l : StructureSelectionHistoryEntry) : Prop :=
  resolvable l /\ tracked m l.

(** A considered pick: the entry's residue selection and its [Residue]. *)
Definition pick_of (m : ResidueMap) (l : StructureSelectionHistoryEntry)
    (p : ResidueSelection * Residue) : Prop :=
  resolve l = Some p.1 /\ Map_get m l = Some p.2.

Definition exchange_of (p : ResidueSelection * Residue) : Exchange :=
  {| residue_id := p.1; allowed := res_exchanges p.2 |}.

Definition has_exchanges (p : ResidueSelection * Residue) : bool :=
  match res_exchanges p.2 with [] => false | _ => true end.

(** All the entries resolve to one model entry id. *)
Definition single_model (ls : list StructureSelectionHistoryEntry) : Prop :=
  forall l1 l2, l1 ∈ ls -> l2 ∈ ls -> entry_model l1 = entry_model l2.

(** None of the entries resolves to [label_seq_id] 0. *)
Definition polymeric (ls : list StructureSelectionHistoryEntry) : Prop :=
  forall l r, l ∈ ls -> resolve l = Some r -> rs_label_seq_id r <> 0.

(** The three conditions as checks that compute. *)
Definition readyb (m : ResidueMap) (l : StructureSelectionHistoryEntry) : bool :=
  match Location_set (entry_loci l), Map_get m l with
  | Some _, Some _ => true
  | _, _ => false
  end.

Definition single_modelb (ls : list StructureSelectionHistoryEntry) : bool :=
  forallb (fun l1 => forallb (fun l2 => String.eqb (entry_model l1) (entry_model l2)) ls) ls.

Definition polymericb (ls : list StructureSelectionHistoryEntry) : bool :=
  forallb (fun l => match resolve l with
                    | Some r => negb (rs_label_seq_id r =? 0)
                    | None => true
                    end) ls.

(** The exchanges the loop pushes for a list of picks, in their order. *)
Definition emitted (picks : list (ResidueSelection * Residue)) : list Exchange :=
  exchange_of <$> List.filter has_exchanges picks.

(** What the loop has collected once it is past a list of picks of the
    given entries. *)
Definition collected_of (acc : Collected) (ls : list StructureSelectionHistoryEntry)
    (picks : list (ResidueSelection * Residue)) : Collected :=
  {| pdbId := foldl JSSet.add (pdbId acc) (entry_model <$> ls);
     residueIds := residueIds acc ++ picks.*1;
     c_exchanges := c_exchanges acc ++ emitted picks |}.

(** The order of the specification: by [label_asym_id], then by
    [struct_oper_id], both in the collation's order of strings, then by
    [label_seq_id] ascending. *)
Definition string_before (a b : string) : Prop := localeCompare a b < 0.

Definition residue_order (a b : ResidueSelection) : Prop :=
  string_before (rs_label_asym_id a) (rs_label_asym_id b) \/
  (rs_label_asym_id a = rs_label_asym_id b /\
   (string_before (rs_struct_oper_id a) (rs_struct_oper_id b) \/
    (rs_struct_oper_id a = rs_struct_oper_id b /\
     rs_label_seq_id a <= rs_label_seq_id b))).

End Component.

(** ** A concrete host, to run the component on

    A structure is its entry id and a table of atoms, a unit an array of
    atom indices with its operator list, and strings are compared letter
    by letter. *)

Record DemoAtom := {
  da_asym : string;
  da_seq : Z;
  da_comp : string
}.

Record DemoStructure := {
  ds_entry : string;
  ds_atoms : list DemoAtom
}.

Record DemoUnit := {
  du_elements : list nat;
  du_opers : option (list string)
}.

Definition demo_atom (s : DemoStructure) (e : nat) : DemoAtom :=
  nth e (ds_atoms s) {| da_asym := ""; da_seq := 0; da_comp := "" |}.

Definition demo_compare (a b : string) : Z :=
  match String.compare a b with
  | Lt => -1
  | Eq => 0
  | Gt => 1
  end.

Definition demoHost : Host :=
  {| Structure := DemoStructure;
     Unit := DemoUnit;
     OrderedSet := list nat;
     UnitIndex := nat;
     ElementIndex := nat;
     model_entry := ds_entry;
     OrderedSet_getAt := fun s i => nth i s 0%nat;
     unit_elements := fun u i => nth i (du_elements u) 0%nat;
     pdbx_struct_oper_list_ids := fun _ u _ => du_opers u;
     label_asym_id := fun s _ e => da_asym (demo_atom s e);
     label_seq_id := fun s _ e => da_seq (demo_atom s e);
     label_comp_id := fun s _ e => da_comp (demo_atom s e);
     localeCompare := demo_compare |}.

Definition demo_atoms : list DemoAtom :=
  [ {| da_asym := "A"; da_seq := 5; da_comp := "ALA" |};
    {| da_asym := "A"; da_seq := 2; da_comp := "GLY" |};
    {| da_asym := "B"; da_seq := 1; da_comp := "SER" |};
    {| da_asym := "B"; da_seq := 7; da_comp := "HIS" |};
    {| da_asym := "A"; da_seq := 9; da_comp := "ASP" |};
    {| da_asym := "C"; da_seq := 3; da_comp := "LYS" |};
    {| da_asym := "A"; da_seq := 1; da_comp := "MET" |};
    {| da_asym := "B"; da_seq := 4; da_comp := "CYS" |};
    {| da_asym := "C"; da_seq := 8; da_comp := "THR" |};
    {| da_asym := "A"; da_seq := 6; da_comp := "VAL" |};
    {| da_asym := "B"; da_seq := 2; da_comp := "TRP" |};
    {| da_asym := "D"; da_seq := 0; da_comp := "HOH" |} ].

Definition demo_1abc : DemoStructure := {| ds_entry := "1ABC"; ds_atoms := demo_atoms |}.
Definition demo_2xyz : DemoStructure := {| ds_entry := "2XYZ"; ds_atoms := demo_atoms |}.

(** The entry that picks atom [k] of a structure; the unit lists the atoms
    in order and carries no operator list. *)
Definition demo_entry (s : DemoStructure) (k : nat)
  : @StructureSelectionHistoryEntry demoHost :=
  {| entry_id := ds_entry s ++ "/" ++ string_of_nat k;
     entry_loci :=
       {| loci_structure := s : @Structure demoHost;
          loci_elements :=
            [ {| el_unit := {| du_elements := seq 0 12; du_opers := None |} : @Unit demoHost;
                 el_indices := [k] : @OrderedSet demoHost |} ] |};
     entry_label := "" |}.

(** The map after [add] rendered the entries: each with its native type. *)
Definition demo_map (ls : list (@StructureSelectionHistoryEntry demoHost))
  : gmap string (option (@Residue demoHost)) :=
  (@add demoHost ∅ ls).1.

Definition demo_history (n : nat) : list (@StructureSelectionHistoryEntry demoHost) :=
  demo_entry demo_1abc <$> seq 0 n.

(** [toggleExchange] called on the [Residue] the map holds for an entry;
    the map holds the object itself and sees the change. *)
Definition demo_toggle (m : gmap string (option (@Residue demoHost)))
    (l : @StructureSelectionHistoryEntry demoHost) (val : string)
  : gmap string (option (@Residue demoHost)) :=
  match Map_get m l with
  | Some r => Map_set m l (Some (toggleExchange r val))
  | None => m
  end.

(** Three picks; "GLY" is allowed for the first besides its own "ALA", and
    the second has its own "GLY" switched off. *)
Definition demo_map_toggled : gmap string (option (@Residue demoHost)) :=
  demo_toggle
    (demo_toggle (demo_map (demo_history 3)) (demo_entry demo_1abc 0) "GLY")
    (demo_entry demo_1abc 1) "GLY".

Definition demo_query_toggled : Query :=
  Eval vm_compute in
    match @submitSearch demoHost demo_map_toggled (demo_history 3) with
    | Opened q => q
    | _ => @build_query demoHost collected_init
    end.

(** A pick of the first model, one of the second and a water. *)
Definition demo_mixed : list (@StructureSelectionHistoryEntry demoHost) :=
  [demo_entry demo_1abc 0; demo_entry demo_2xyz 1; demo_entry demo_1abc 11].

(** Two residues and a water of one model. *)
Definition demo_water : list (@StructureSelectionHistoryEntry demoHost) :=
  [demo_entry demo_1abc 0; demo_entry demo_1abc 1; demo_entry demo_1abc 11].

(** ** Further vocabulary of the component *)

Section ComponentMore.
Context `{H : Host}.

(** The entry with its loci cut down to their first element. *)
Definition first_element_only (l : StructureSelectionHistoryEntry)
  : StructureSelectionHistoryEntry :=
  {| entry_id := entry_id l;
     entry_loci :=
       {| loci_structure := loci_structure (entry_loci l);
          loci_elements := take 1 (loci_elements (entry_loci l)) |};
     entry_label := entry_label l |}.

(** The exchange set a [Residue] made for the entry starts with. *)
Definition exchanges_of_new (l : StructureSelectionHistoryEntry) : option JSSet.t :=
  res_exchanges <$> Residue_new l.

Definition resolvableb (l : StructureSelectionHistoryEntry) : bool :=
  match Location_set (entry_loci l) with
  | Some _ => true
  | None => false
  end.

(** What a turn of the loop of [add] needs of the map and the entry: the
    map holds a [Residue] for the entry, or the entry is no key and a
    [Residue] can be made for it. *)
Definition renderable (m : gmap string (option Residue))
    (l : StructureSelectionHistoryEntry) : Prop :=
  tracked m l \/ (Map_has m l = false /\ resolvable l).

Definition renderableb (m : gmap string (option Residue))
    (l : StructureSelectionHistoryEntry) : bool :=
  match Map_get m l with
  | Some _ => true
  | None => negb (Map_has m l) && resolvableb l
  end.

(** The entries the loop of [add] visits. *)
Definition rendered (history : list StructureSelectionHistoryEntry)
  : list StructureSelectionHistoryEntry :=
  take (Nat.min (length history) 10) history.

End ComponentMore.

(** * The validation report controls (src/viewer/ui/validation.tsx) *)

Module Validation.

(** What the component reads of a Mol* model: whether its source data are
    mmCIF ([MmcifFormat.is(model.sourceData)]) and its entry id. *)
Record Model := {
  sourceData_is_mmcif : bool;
  entryId : string
}.

(** The data of a structure object and the state cell that may hold one. *)
Record StructureData := {
  models : list Model
}.

Record Cell := {
  obj : option StructureData
}.

(** The state of the component that its own code reads and writes. *)
Record State := {
  isCollapsed : bool;
  isHidden : bool;
  errorStates : JSSet.t;
  description : string
}.

Record ActionItem := {
  label : string;
  disabled : bool
}.

Definition ValidationReportTag : string := "validation-report".

Definition code (c : ascii) : nat := nat_of_ascii c.

Definition between (lo hi : nat) (c : ascii) : bool :=
  (lo <=? code c)%nat && (code c <=? hi)%nat.

(** The classes of the two patterns, under the flag [i]. *)
Definition is_digit (c : ascii) : bool := between 48 57 c.
Definition is_digit_1_9 (c : ascii) : bool := between 49 57 c.
Definition is_alnum_i (c : ascii) : bool :=
  between 97 122 c || between 65 90 c || is_digit c.
(** A letter of the pattern, given by the code of its capital. *)
Definition is_letter_i (capital : nat) (c : ascii) : bool :=
  (code c =? capital)%nat || (code c =? capital + 32)%nat.

(** [/^[1-9][a-z0-9]{3}$/i] *)
Definition match_pdb_id (s : string) : bool :=
  match s with
  | String c0 (String c1 (String c2 (String c3 EmptyString))) =>
      is_digit_1_9 c0 && is_alnum_i c1 && is_alnum_i c2 && is_alnum_i c3
  | _ => false
  end.

(** [/^pdb_[0-9]{4}[1-9][a-z0-9]{3}$/i] *)
Definition match_extended_pdb_id (s : string) : bool :=
  match s with
  | String p (String d (String b (String u
      (String n0 (String n1 (String n2 (String n3 rest))))))) =>
      is_letter_i 80 p && is_letter_i 68 d && is_letter_i 66 b &&
      (code u =? 95)%nat &&
      is_digit n0 && is_digit n1 && is_digit n2 && is_digit n3 &&
      match_pdb_id rest
  | _ => false
  end.

Definition isFromPdbArchive (model : Model) : bool :=
  if negb (sourceData_is_mmcif model) then false
  else match_pdb_id (entryId model) || match_extended_pdb_id (entryId model).

Section Controls.
(** Of Mol*: [ValidationReport.isApplicable], whether applying the preset
    to a cell goes through, and the description of the selection. *)
Context (ValidationReport_isApplicable : Model -> bool).
Context (preset_applies : Cell -> bool).

(** [this.pivot]: [structures[0]], [None] when it is [undefined]. *)
Definition pivot (structures : list Cell) : option Cell := head structures.

Definition canEnable (structures : list Cell) : bool :=
  if negb (length structures =? 1)%nat then false
  else match pivot structures with
       | None => false
       | Some cell =>
           match obj cell with
           | None => false
           | Some data =>
               (length (models data) =? 1)%nat &&
               match head (models data) with
               | Some model => ValidationReport_isApplicable model
               | None => false
               end
           end
       end.

(** [noValidationReport]; [None] when [this.pivot] is [undefined] and
    reading its [cell] throws. *)
Definition noValidationReport (structures : list Cell) : option bool :=
  match pivot structures with
  | None => None
  | Some cell =>
      Some match obj cell with
           | None => true
           | Some structure =>
               if negb (length (models structure) =? 1)%nat then true
               else match head (models structure) with
                    | None => true
                    | Some model => negb (isFromPdbArchive model)
                    end
           end
  end.

(** The menu item of [actions]; [None] when the getter throws. *)
Definition actions (st : State) (structures : list Cell) : option ActionItem :=
  match noValidationReport structures with
  | None => None
  | Some noReport =>
      let validationReportError := JSSet.has (errorStates st) ValidationReportTag in
      Some {| label :=
                if validationReportError then "Failed to Obtain Validation Report"
                else if noReport then "No Validation Report Available"
                else "RCSB PDB Validation Report";
              disabled := noReport || validationReportError |}
  end.

(** [requestValidationReportPreset]: whatever is thrown while the preset
    is applied, reading the pivot included, is caught and recorded. *)
Definition requestValidationReportPreset (st : State) (structures : list Cell) : State :=
  let applied :=
    match pivot structures with
    | None => false
    | Some cell => preset_applies cell
    end in
  if applied then st
  else {| isCollapsed := isCollapsed st;
          isHidden := isHidden st;
          errorStates := JSSet.add (errorStates st) ValidationReportTag;
          description := description st |}.

(** The subscription of [componentDidMount] to the selection of the
    hierarchy. *)
Definition selectionChanged (st : State) (structures : list Cell)
    (selectedStructuresDescription : string) : State :=
  {| isCollapsed := isCollapsed st;
     isHidden := negb (canEnable structures);
     errorStates := JSSet.empty;
     description := selectedStructuresDescription |}.

End Controls.

(** The capital of a small letter, other characters as they are. *)
Definition ascii_upper (c : ascii) : ascii :=
  if between 97 122 c then ascii_of_nat (code c - 32) else c.

Fixpoint string_upper (s : string) : string :=
  match s with
  | EmptyString => EmptyString
  | String c s' => String (ascii_upper c) (string_upper s')
  end.

End Validation.

(** * JavaScript numbers, as far as the code compares them *)

Module JSNumber.

Inductive t :=
| NaN
| NegInf
| Fin (q : Q)
| PosInf.

Definition of_Z (z : Z) : t := Fin (inject_Z z).

(** [a > b] *)
Definition gt (a b : t) : bool :=
  match a, b with
  | NaN, _ | _, NaN => false
  | NegInf, _ => false
  | _, PosInf => false
  | Fin x, Fin y => negb (Qle_bool x y)
  | Fin _, NegInf => true
  | PosInf, _ => true
  end.

(** [a <= b] *)
Definition le (a b : t) : bool :=
  match a, b with
  | NaN, _ | _, NaN => false
  | NegInf, _ => true
  | _, PosInf => true
  | Fin x, Fin y => Qle_bool x y
  | Fin _, NegInf => false
  | PosInf, _ => false
  end.

(** [a === b] *)
Definition strict_eq (a b : t) : bool :=
  match a, b with
  | NegInf, NegInf => true
  | PosInf, PosInf => true
  | Fin x, Fin y => Qeq_bool x y
  | _, _ => false
  end.

End JSNumber.

(** * The confidence scores of a model (src/viewer/helpers/model.ts) *)

Module AfConfidence.

(** A row of the table of [ma_qa_metric_local], with the columns that are
    read. *)
Record Row := {
  row_label_asym_id : string;
  row_label_seq_id : Z;
  row_metric_value : JSNumber.t
}.

(** The category of a score, the chain of conditions in the loop. *)
Definition confidencyCategory (confidenceScore : JSNumber.t) : string :=
  if JSNumber.gt confidenceScore (JSNumber.of_Z 50) &&
     JSNumber.le confidenceScore (JSNumber.of_Z 70) then "Low"
  else if JSNumber.gt confidenceScore (JSNumber.of_Z 70) &&
          JSNumber.le confidenceScore (JSNumber.of_Z 90) then "Confident"
  else if JSNumber.gt confidenceScore (JSNumber.of_Z 90) then "Very high"
  else "Very low".

(** Mol*'s [arraySetAdd]: the element is pushed unless the array has it. *)
Definition arraySetAdd (array : list string) (e : string) : list string :=
  if existsb (String.eqb e) array then array else array ++ [e].

(** What [createScoreMapFromCif] returns: [score] is the map [ret] that
    is handed to [IndexedCustomProperty.fromResidueMap]. *)
Record ScoreMap := {
  score : gmap Z (JSNumber.t * string);
  category : list string
}.

Section ScoreMap.
(** [modelData.atomicHierarchy.index.findResidue('1', label_asym_id,
    label_seq_id, '')] of Mol*. *)
Context (findResidue : string -> Z -> Z).

(** The category of the score of a row and the residue index the row is
    sent to. *)
Definition row_category (row : Row) : string :=
  confidencyCategory (row_metric_value row).

Definition row_index (row : Row) : Z :=
  findResidue (row_label_asym_id row) (row_label_seq_id row).

Definition score_step (acc : ScoreMap) (row : Row) : ScoreMap :=
  let confidenceScore := row_metric_value row in
  let idx := findResidue (row_label_asym_id row) (row_label_seq_id row) in
  let confidencyCategory := confidencyCategory confidenceScore in
  {| score := <[idx := (confidenceScore, confidencyCategory)]> (score acc);
     category := arraySetAdd (category acc) confidencyCategory |}.

(** [createScoreMapFromCif], on the rows of the table in their order. *)
Definition createScoreMapFromCif (residueData : list Row) : ScoreMap :=
  foldl score_step {| score := ∅; category := [] |} residueData.

End ScoreMap.

End AfConfidence.

(** * The general settings of the controls (class [GeneralSettings]) *)

Module GeneralSettings.

Section Props.
(** What the props of the canvas hold besides what is read and written
    here. *)
Context {Color TrackballRest RendererRest PostprocessingRest : Type}.

Record Trackball := {
  spin : bool;
  trackball_rest : TrackballRest
}.

Record Renderer := {
  backgroundColor : Color;
  lightIntensity : JSNumber.t;
  ambientIntensity : JSNumber.t;
  roughness : JSNumber.t;
  metalness : JSNumber.t;
  renderer_rest : RendererRest
}.

Record Postprocessing := {
  outlineEnable : bool;
  occlusionEnable : bool;
  postprocessing_rest : PostprocessingRest
}.

(** [this.plugin.canvas3d.props] *)
Record Canvas3DProps := {
  trackball : Trackball;
  renderer : Renderer;
  postprocessing : Postprocessing
}.

(** The [settings] of a dispatched [SetSettings] command: the parts that
    are given. *)
Record Settings := {
  s_trackball : option Trackball;
  s_renderer : option Renderer;
  s_postprocessing : option Postprocessing
}.

(** The names [setSettings] tells apart. *)
Definition known_param (name : string) : bool :=
  existsb (String.eqb name)
    ["spin"%string; "backgroundColor"%string; "renderStyle"%string; "occlusion"%string].

(** The change [p] a parameter control reports: the name of the parameter
    with a value of its kind, or another name. *)
Inductive Change :=
| Spin (value : bool)
| BackgroundColor (value : Color)
| RenderStyle (value : string)
| Occlusion (value : bool)
| OtherParam (name : string) (other : known_param name = false).

Definition n0 : JSNumber.t := JSNumber.of_Z 0.
Definition n1 : JSNumber.t := JSNumber.of_Z 1.
Definition n0_4 : JSNumber.t := JSNumber.Fin (4 # 10).
Definition n0_6 : JSNumber.t := JSNumber.Fin (6 # 10).

Definition with_outline (postprocessing : Postprocessing) (enable : bool) : Postprocessing :=
  {| outlineEnable := enable;
     occlusionEnable := occlusionEnable postprocessing;
     postprocessing_rest := postprocessing_rest postprocessing |}.

Definition with_light (renderer : Renderer) (light ambient rough metal : JSNumber.t)
  : Renderer :=
  {| backgroundColor := backgroundColor renderer;
     lightIntensity := light;
     ambientIntensity := ambient;
     roughness := rough;
     metalness := metal;
     renderer_rest := renderer_rest renderer |}.

(** [setSettings]: the settings it dispatches, [None] when it dispatches
    nothing. *)
Definition setSettings (props : Canvas3DProps) (p : Change) : option Settings :=
  match p with
  | Spin value =>
      Some {| s_trackball :=
                Some {| spin := value;
                        trackball_rest := trackball_rest (trackball props) |};
              s_renderer := None;
              s_postprocessing := None |}
  | BackgroundColor value =>
      let renderer := renderer props in
      Some {| s_trackball := None;
              s_renderer :=
                Some {| backgroundColor := value;
                        lightIntensity := lightIntensity renderer;
                        ambientIntensity := ambientIntensity renderer;
                        roughness := roughness renderer;
                        metalness := metalness renderer;
                        renderer_rest := renderer_rest renderer |};
              s_postprocessing := None |}
  | RenderStyle value =>
      let postprocessing := postprocessing props in
      let renderer := renderer props in
      if String.eqb value "toon" then
        Some {| s_trackball := None;
                s_postprocessing := Some (with_outline postprocessing true);
                s_renderer := Some (with_light renderer n0 n1 n0_4 n0) |}
      else if String.eqb value "matte" then
        Some {| s_trackball := None;
                s_postprocessing := Some (with_outline postprocessing false);
                s_renderer := Some (with_light renderer n0_6 n0_4 n1 n0) |}
      else if String.eqb value "glossy" then
        Some {| s_trackball := None;
                s_postprocessing := Some (with_outline postprocessing false);
                s_renderer := Some (with_light renderer n0_6 n0_4 n0_4 n0) |}
      else if String.eqb value "metallic" then
        Some {| s_trackball := None;
                s_postprocessing := Some (with_outline postprocessing false);
                s_renderer := Some (with_light renderer n0_6 n0_4 n0_6 n0_4) |}
      else None
  | Occlusion value =>
      let postprocessing := postprocessing props in
      Some {| s_trackball := None;
              s_renderer := None;
              s_postprocessing :=
                Some {| outlineEnable := outlineEnable postprocessing;
                        occlusionEnable := value;
                        postprocessing_rest := postprocessing_rest postprocessing |} |}
  | OtherParam _ _ => None
  end.

Record Values := {
  v_spin : bool;
  v_backgroundColor : Color;
  v_renderStyle : string;
  v_occlusion : bool
}.

Definition renderStyle_of (postprocessing : Postprocessing) (renderer : Renderer)
  : string :=
  let eq := JSNumber.strict_eq in
  if outlineEnable postprocessing then
    if eq (lightIntensity renderer) n0 && eq (ambientIntensity renderer) n1 &&
       eq (roughness renderer) n0_4 && eq (metalness renderer) n0
    then "toon" else "custom"
  else if eq (lightIntensity renderer) n0_6 && eq (ambientIntensity renderer) n0_4 then
    if eq (roughness renderer) n1 && eq (metalness renderer) n0 then "matte"
    else if eq (roughness renderer) n0_4 && eq (metalness renderer) n0 then "glossy"
    else if eq (roughness renderer) n0_6 && eq (metalness renderer) n0_4 then "metallic"
    else "custom"
  else "custom".

(** The getter [values]. *)
Definition values (props : Canvas3DProps) : Values :=
  {| v_spin := spin (trackball props);
     v_backgroundColor := backgroundColor (renderer props);
     v_renderStyle := renderStyle_of (postprocessing props) (renderer props);
     v_occlusion := occlusionEnable (postprocessing props) |}.

(** The props once the canvas has taken dispatched settings: the parts
    that are given replace the old ones. *)
Definition settled (props : Canvas3DProps) (settings : Settings) : Canvas3DProps :=
  {| trackball := default (trackball props) (s_trackball settings);
     renderer := default (renderer props) (s_renderer settings);
     postprocessing := default (postprocessing props) (s_postprocessing settings) |}.

End Props.

End GeneralSettings.

(** ** The order in the words of the specification

    Lexicographic on strings: letter by letter, by the codes of the
    letters. *)

Definition lexicographic_before (a b : string) : Prop := String.compare a b = Lt.

Definition lexicographic_order (a b : ResidueSelection) : Prop :=
  lexicographic_before (rs_label_asym_id a) (rs_label_asym_id b) \/
  (rs_label_asym_id a = rs_label_asym_id b /\
   (lexicographic_before (rs_struct_oper_id a) (rs_struct_oper_id b) \/
    (rs_struct_oper_id a = rs_struct_oper_id b /\
     rs_label_seq_id a <= rs_label_seq_id b))).

(** ** A host that collates as a locale does

    [localeCompare] compares letters without regard to their case first
    and puts a small letter before its capital: "a" before "B", "a" before
    "A". *)

Definition ascii_fold (c : ascii) : ascii :=
  if (97 <=? nat_of_ascii c)%nat && (nat_of_ascii c <=? 122)%nat
  then ascii_of_nat (nat_of_ascii c - 32)
  else c.

Fixpoint string_fold (s : string) : string :=
  match s with
  | EmptyString => EmptyString
  | String c s' => String (ascii_fold c) (string_fold s')
  end.

Definition locale_compare (a b : string) : Z :=
  match String.compare (string_fold a) (string_fold b) with
  | Lt => -1
  | Gt => 1
  | Eq => match String.compare b a with
          | Lt => -1
          | Eq => 0
          | Gt => 1
          end
  end.

Definition localeHost : Host :=
  {| Structure := DemoStructure;
     Unit := DemoUnit;
     OrderedSet := list nat;
     UnitIndex := nat;
     ElementIndex := nat;
     model_entry := ds_entry;
     OrderedSet_getAt := fun s i => nth i s 0%nat;
     unit_elements := fun u i => nth i (du_elements u) 0%nat;
     pdbx_struct_oper_list_ids := fun _ u _ => du_opers u;
     label_asym_id := fun s _ e => da_asym (demo_atom s e);
     label_seq_id := fun s _ e => da_seq (demo_atom s e);
     label_comp_id := fun s _ e => da_comp (demo_atom s e);
     localeCompare := locale_compare |}.

(** A model with a chain "a" beside a chain "B". *)
Definition locale_structure : DemoStructure :=
  {| ds_entry := "7XYZ";
     ds_atoms :=
       [ {| da_asym := "B"; da_seq := 2; da_comp := "GLY" |};
         {| da_asym := "a"; da_seq := 1; da_comp := "ALA" |};
         {| da_asym := "B"; da_seq := 1; da_comp := "SER" |} ] |}.

Definition locale_entry (k : nat) : @StructureSelectionHistoryEntry localeHost :=
  {| entry_id := ds_entry locale_structure ++ "/" ++ string_of_nat k;
     entry_loci :=
       {| loci_structure := locale_structure : @Structure localeHost;
          loci_elements :=
            [ {| el_unit := {| du_elements := seq 0 3; du_opers := None |} : @Unit localeHost;
                 el_indices := [k] : @OrderedSet localeHost |} ] |};
     entry_label := "" |}.

(** The three residues picked in the order of the table, and the map
    after [add] rendered them. *)
Definition locale_history : list (@StructureSelectionHistoryEntry localeHost) :=
  locale_entry <$> seq 0 3.

Definition locale_map : gmap string (option (@Residue localeHost)) :=
  (@add localeHost ∅ locale_history).1.

(** ** Concrete inputs of the other components *)

(** A model of the archive under its extended id, selected alone. *)
Definition demo_model : Validation.Model :=
  {| Validation.sourceData_is_mmcif := true; Validation.entryId := "pdb_00001ABC" |}.

Definition demo_cells : list Validation.Cell :=
  [ {| Validation.obj := Some {| Validation.models := [demo_model] |} |} ].

Definition demo_state : Validation.State :=
  {| Validation.isCollapsed := false;
     Validation.isHidden := false;
     Validation.errorStates := JSSet.empty;
     Validation.description := "" |}.

(** Props of a canvas that show none of the four render styles. *)
Definition demo_props : @GeneralSettings.Canvas3DProps Z unit unit unit :=
  {| GeneralSettings.trackball :=
       {| GeneralSettings.spin := false; GeneralSettings.trackball_rest := tt |};
     GeneralSettings.renderer :=
       {| GeneralSettings.backgroundColor := 0;
          GeneralSettings.lightIntensity := JSNumber.Fin (1 # 2);
          GeneralSettings.ambientIntensity := JSNumber.Fin (1 # 2);
          GeneralSettings.roughness := JSNumber.Fin (1 # 2);
          GeneralSettings.metalness := JSNumber.of_Z 0;
          GeneralSettings.renderer_rest := tt |};
     GeneralSettings.postprocessing :=
       {| GeneralSettings.outlineEnable := true;
          GeneralSettings.occlusionEnable := false;
          GeneralSettings.postprocessing_rest := tt |} |}.

(** ** Facts about the set model *)

Module JSSetFacts.

Lemma has_true (s : JSSet.t) (v : string) : JSSet.has s v = true <-> v ∈ s.
Proof.
  unfold JSSet.has. rewrite existsb_exists, list_elem_of_In. split.
  - intros (x & Hx & Heq). apply String.eqb_eq in Heq. by subst.
  - intros Hv. exists v. split; [done | apply String.eqb_refl].
Qed.

Lemma has_false (s : JSSet.t) (v : string) : JSSet.has s v = false <-> v ∉ s.
Proof.
  rewrite <- has_true. destruct (JSSet.has s v); split; congruence.
Qed.

Lemma elem_of_add (s : JSSet.t) (v w : string) :
  w ∈ JSSet.add s v <-> w ∈ s \/ w = v.
Proof.
  unfold JSSet.add. destruct (JSSet.has s v) eqn:E.
  - apply has_true in E. split; [by left | intros [?| ->]; done].
  - rewrite elem_of_app, list_elem_of_singleton. tauto.
Qed.

Lemma elem_of_delete (s : JSSet.t) (v w : string) :
  w ∈ JSSet.delete s v <-> w ∈ s /\ w <> v.
Proof.
  unfold JSSet.delete. rewrite !list_elem_of_In, filter_In.
  rewrite negb_true_iff, String.eqb_neq. split; intros [? ?]; split; congruence.
Qed.

Lemma NoDup_add (s : JSSet.t) (v : string) : NoDup s -> NoDup (JSSet.add s v).
Proof.
  intros Hs. unfold JSSet.add. destruct (JSSet.has s v) eqn:E; [done |].
  apply has_false in E. apply NoDup_app. split_and!; [done | | apply NoDup_singleton].
  intros x Hx Hx'. apply list_elem_of_singleton in Hx'. by subst.
Qed.

Lemma delete_absent (s : JSSet.t) (v : string) : v ∉ s -> JSSet.delete s v = s.
Proof.
  unfold JSSet.delete. induction s as [| x s IH]; [done |]. intros Hv.
  apply not_elem_of_cons in Hv as [Hne Hv]. simpl.
  destruct (String.eqb_spec v x) as [-> | _]; [done |]. simpl. by rewrite IH.
Qed.

Lemma delete_add_absent (s : JSSet.t) (v : string) :
  v ∉ s -> JSSet.delete (JSSet.add s v) v = s.
Proof.
  intros Hv. unfold JSSet.add. rewrite (proj2 (has_false s v) Hv).
  unfold JSSet.delete. rewrite List.filter_app. simpl. rewrite String.eqb_refl. simpl.
  rewrite app_nil_r. by apply delete_absent.
Qed.

Lemma elem_of_foldl_add (ms : list string) (s : JSSet.t) (v : string) :
  v ∈ foldl JSSet.add s ms <-> v ∈ s \/ v ∈ ms.
Proof.
  revert s. induction ms as [| m ms IH]; intros s; simpl.
  - rewrite elem_of_nil. tauto.
  - rewrite IH, elem_of_add, elem_of_cons. tauto.
Qed.

Lemma NoDup_foldl_add (ms : list string) (s : JSSet.t) :
  NoDup s -> NoDup (foldl JSSet.add s ms).
Proof.
  revert s. induction ms as [| m ms IH]; intros s Hs; simpl; [done |].
  apply IH. by apply NoDup_add.
Qed.

(** A duplicate-free list whose members are all equal has at most one. *)
Lemma NoDup_all_equal (s : list string) (p : string) :
  NoDup s -> (forall v, v ∈ s -> v = p) -> (length s <= 1)%nat.
Proof.
  intros Hs Hall. destruct s as [| a [| b s]]; simpl; [lia | lia |].
  exfalso. apply NoDup_cons in Hs as [Hab _]. apply Hab.
  rewrite (Hall a), (Hall b); [left | right; left | left].
Qed.

(** A duplicate-free list with two different members has at least two. *)
Lemma NoDup_two_members (s : list string) (a b : string) :
  a ∈ s -> b ∈ s -> a <> b -> (1 < length s)%nat.
Proof.
  intros Ha Hb Hne. destruct s as [| x [| y s]]; simpl; [| | lia].
  - by apply elem_of_nil in Ha.
  - apply list_elem_of_singleton in Ha, Hb. congruence.
Qed.

End JSSetFacts.

(** ** Facts about the sort *)

Lemma StronglySorted_weaken {A : Type} (R1 R2 : A -> A -> Prop) (l : list A) :
  (forall a b, R1 a b -> R2 a b) -> StronglySorted R1 l -> StronglySorted R2 l.
Proof.
  intros Himp. induction 1 as [| x l _ IH Hx]; constructor; [done |].
  eapply Forall_impl; [exact Hx | auto].
Qed.

Section ArraySortFacts.
Context {A : Type} (compareFn : A -> A -> Z).

Local Abbreviation before := (sorted_before compareFn).

Lemma sort_insert_Permutation (x : A) (l : list A) :
  sort_insert compareFn x l ≡ₚ x :: l.
Proof.
  induction l as [| y l IH]; simpl; [done |].
  destruct (compareFn x y <=? 0); [done |].
  rewrite IH. apply Permutation_swap.
Qed.

Lemma Array_sort_Permutation (l : list A) : Array_sort compareFn l ≡ₚ l.
Proof.
  induction l as [| x l IH]; simpl; [done |].
  by rewrite sort_insert_Permutation, IH.
Qed.

Lemma Array_sort_length (l : list A) : length (Array_sort compareFn l) = length l.
Proof. apply Permutation_length, Array_sort_Permutation. Qed.

Hypothesis compare_total : forall a b, before a b \/ before b a.
Hypothesis compare_trans :
  forall a b c, before a b -> before b c -> before a c.

Lemma sort_insert_sorted (x : A) (l : list A) :
  StronglySorted before l ->
  StronglySorted before (sort_insert compareFn x l).
Proof.
  induction 1 as [| y l Hl IH Hy]; simpl.
  - repeat constructor.
  - destruct (Z.leb_spec (compareFn x y) 0) as [Hxy | Hxy].
    + constructor; [by constructor |].
      constructor; [done |].
      eapply Forall_impl; [exact Hy |]. intros z Hz. by eapply compare_trans.
    + constructor; [done |].
      rewrite sort_insert_Permutation. constructor; [| done].
      destruct (compare_total x y) as [Hle | Hle]; [| done].
      unfold sorted_before in Hle. lia.
Qed.

Lemma Array_sort_sorted (l : list A) :
  StronglySorted before (Array_sort compareFn l).
Proof.
  induction l as [| x l IH]; simpl; [constructor |].
  by apply sort_insert_sorted.
Qed.

End ArraySortFacts.

(** ** The collection loop of [submitSearch] *)

Section CollectFacts.
Context `{H : Host}.
Implicit Types (m : gmap string (option Residue)).
Implicit Types (l : StructureSelectionHistoryEntry).
Implicit Types (ls : list StructureSelectionHistoryEntry).
Implicit Types (picks : list (ResidueSelection * Residue)).

Lemma ready_pick m l : ready m l <-> exists p, pick_of m l p.
Proof.
  unfold ready, resolvable, tracked, pick_of, resolve. split.
  - intros [[loc Hloc] [r Hr]]. exists (residueId_at loc, r). by rewrite Hloc, Hr.
  - intros [[rid r] [Hrid Hr]]. simpl in *. split; [| by eexists].
    destruct (Location_set (entry_loci l)); [by eexists | done].
Qed.

Lemma collected_of_nil acc : collected_of acc [] [] = acc.
Proof.
  destruct acc. unfold collected_of, emitted. simpl. by rewrite !app_nil_r.
Qed.

Lemma collect_step_Some m acc l c :
  collect_step m acc l = Some c <->
  exists p, pick_of m l p /\ c = collected_of acc [l] [p].
Proof.
  unfold collect_step, pick_of, resolve, collected_of, emitted, has_exchanges,
    JSSet.size, JSSet.values, exchange_of.
  destruct (Location_set (entry_loci l)) as [loc |]; simpl.
  - destruct (Map_get m l) as [r |]; simpl.
    + split.
      * intros [= <-]. exists (residueId_at loc, r). simpl.
        split; [done |]. destruct r as [e [| x xs]]; simpl; by rewrite ?app_nil_r.
      * intros ([rid r'] & [[= <-] [= <-]] & ->). simpl.
        destruct r as [e [| x xs]]; simpl; by rewrite ?app_nil_r.
    + split; [done |]. by intros (? & [_ ?] & _).
  - split; [done |]. by intros (? & [? _] & _).
Qed.

Lemma collected_of_cons acc l ls p picks :
  collected_of (collected_of acc [l] [p]) ls picks = collected_of acc (l :: ls) (p :: picks).
Proof.
  unfold collected_of, emitted. simpl. rewrite <- !app_assoc. f_equal.
  simpl. by destruct (has_exchanges p).
Qed.

Lemma collect_Some m ls : forall acc c,
  collect m acc ls = Some c <->
  exists picks, Forall2 (pick_of m) ls picks /\ c = collected_of acc ls picks.
Proof.
  induction ls as [| l ls IH]; intros acc c; simpl.
  - split.
    + intros [= <-]. exists []. split; [constructor | by rewrite collected_of_nil].
    + intros (picks & Hp & ->). apply Forall2_nil_inv_l in Hp as ->.
      by rewrite collected_of_nil.
  - destruct (collect_step m acc l) as [acc' |] eqn:E.
    + apply collect_step_Some in E as (p & Hp & ->). rewrite IH. split.
      * intros (picks & Hps & ->). exists (p :: picks).
        split; [by constructor | apply collected_of_cons].
      * intros (picks & Hps & ->).
        apply Forall2_cons_inv_l in Hps as (p' & picks' & Hp' & Hps & ->).
        assert (p' = p) as ->.
        { destruct p, p', Hp as [? ?], Hp' as [? ?]. simpl in *. congruence. }
        exists picks'. split; [done | by rewrite collected_of_cons].
    + split; [done |]. intros (picks & Hps & _).
      apply Forall2_cons_inv_l in Hps as (p & ? & Hp & _ & _).
      assert (is_Some (collect_step m acc l)) as [? ?]; [| congruence].
      rewrite <- not_eq_None_Some. intros HN.
      enough (Some (collected_of acc [l] [p]) = None) by done.
      rewrite <- HN. symmetry. apply collect_step_Some. eauto.
Qed.

Lemma ready_picks m ls :
  Forall (ready m) ls <-> exists picks, Forall2 (pick_of m) ls picks.
Proof.
  split.
  - induction 1 as [| l ls Hl _ [picks IH]]; [exists []; constructor |].
    apply ready_pick in Hl as [p Hp]. exists (p :: picks). by constructor.
  - intros [picks Hps]. induction Hps; constructor; [| done].
    apply ready_pick. eauto.
Qed.

Lemma picks_resolve m ls picks :
  Forall2 (pick_of m) ls picks -> Forall2 (fun l r => resolve l = Some r) ls picks.*1.
Proof. induction 1 as [| l p ls picks [? _]]; simpl; by constructor. Qed.

Lemma considered_length ls : (length (considered ls) <= MAX_MOTIF_SIZE)%nat.
Proof. unfold considered. rewrite length_take. lia. Qed.

Lemma considered_short ls : (length ls <= MAX_MOTIF_SIZE)%nat -> considered ls = ls.
Proof. intros Hl. unfold considered. apply take_ge. lia. Qed.

Lemma considered_long ls : (MAX_MOTIF_SIZE <= length ls)%nat -> considered ls = take 10 ls.
Proof. intros Hl. unfold considered. by rewrite Nat.min_l. Qed.

Lemma considered_idemp ls : considered (considered ls) = considered ls.
Proof. apply considered_short, considered_length. Qed.

(** [submitSearch] once the loop gets past every considered entry: the
    size check never fires. *)
Lemma submitSearch_picks m ls picks :
  Forall2 (pick_of m) (considered ls) picks ->
  submitSearch m ls =
    let c := collected_of collected_init (considered ls) picks in
    if (1 <? JSSet.size (pdbId c))%nat then Warned WARN_MULTI_MODEL
    else if (0 <? length (List.filter (fun v => (rs_label_seq_id v =? 0)%Z) picks.*1))%nat
         then Warned WARN_NON_POLYMERIC
    else Opened (build_query c).
Proof.
  intros Hps. unfold submitSearch.
  assert (collect m collected_init (considered ls)
          = Some (collected_of collected_init (considered ls) picks)) as ->.
  { apply collect_Some. eauto. }
  cbv zeta. destruct (1 <? _)%nat; [done |].
  assert (length picks.*1 <= MAX_MOTIF_SIZE)%nat as Hlen.
  { rewrite length_fmap, <- (Forall2_length _ _ _ Hps). apply considered_length. }
  simpl residueIds.
  destruct (Nat.ltb_spec MAX_MOTIF_SIZE (length picks.*1)); [lia | done].
Qed.

Lemma submitSearch_not_ready m ls :
  ~ Forall (ready m) (considered ls) -> submitSearch m ls = TypeError.
Proof.
  intros Hn. unfold submitSearch.
  destruct (collect m collected_init (considered ls)) as [c |] eqn:E; [| done].
  exfalso. apply Hn, ready_picks. apply collect_Some in E as (picks & ? & _). eauto.
Qed.

End CollectFacts.

(** ** The comparator of [sortResidueIds] *)

Section ComparatorFacts.
Context `{H : Host} {L : CollationLaws H}.

Lemma localeCompare_refl (a : string) : localeCompare a a = 0.
Proof.
  pose proof (localeCompare_antisym a a). lia.
Qed.

Lemma localeCompare_ne (a b : string) : a <> b -> localeCompare a b <> 0.
Proof. intros Hne Hz. by apply Hne, localeCompare_zero. Qed.

Lemma string_before_irrefl (a : string) : ~ string_before a a.
Proof. unfold string_before. rewrite localeCompare_refl. lia. Qed.

Lemma string_before_trans (a b c : string) :
  string_before a b -> string_before b c -> string_before a c.
Proof. apply localeCompare_trans. Qed.

Lemma string_before_total (a b : string) :
  a = b \/ string_before a b \/ string_before b a.
Proof.
  destruct (decide (a = b)) as [-> | Hne]; [by left | right].
  unfold string_before. pose proof (localeCompare_ne a b Hne).
  pose proof (localeCompare_antisym b a). lia.
Qed.

Lemma sortResidueIds_order (a b : ResidueSelection) :
  sorted_before sortResidueIds a b <-> residue_order a b.
Proof.
  unfold sorted_before, sortResidueIds, residue_order.
  destruct (String.eqb_spec (rs_label_asym_id a) (rs_label_asym_id b)) as [Ha | Ha]; simpl.
  - rewrite Ha.
    destruct (String.eqb_spec (rs_struct_oper_id a) (rs_struct_oper_id b)) as [Ho | Ho]; simpl.
    + rewrite Ho.
      pose proof (string_before_irrefl (rs_label_asym_id b)).
      pose proof (string_before_irrefl (rs_struct_oper_id b)).
      destruct (Z.ltb_spec (rs_label_seq_id a) (rs_label_seq_id b)); [intuition lia |].
      destruct (Z.gtb_spec (rs_label_seq_id a) (rs_label_seq_id b)); intuition lia.
    + pose proof (string_before_irrefl (rs_label_asym_id b)).
      pose proof (localeCompare_ne _ _ Ho). unfold string_before in *.
      intuition lia.
  - pose proof (localeCompare_ne _ _ Ha). unfold string_before.
    intuition lia.
Qed.

Lemma residue_order_total (a b : ResidueSelection) :
  residue_order a b \/ residue_order b a.
Proof.
  unfold residue_order.
  destruct (string_before_total (rs_label_asym_id a) (rs_label_asym_id b))
    as [Ha | [? | ?]]; [| tauto | tauto].
  destruct (string_before_total (rs_struct_oper_id a) (rs_struct_oper_id b))
    as [Ho | [? | ?]]; [| tauto | intuition].
  destruct (Z.le_ge_cases (rs_label_seq_id a) (rs_label_seq_id b)); intuition.
Qed.

Lemma residue_order_trans (a b c : ResidueSelection) :
  residue_order a b -> residue_order b c -> residue_order a c.
Proof.
  unfold residue_order.
  intros [Hab | [Hab Hab']] [Hbc | [Hbc Hbc']].
  - left. by eapply string_before_trans.
  - left. by rewrite <- Hbc.
  - left. by rewrite Hab.
  - right. split; [congruence |].
    destruct Hab' as [Hab' | [Hab' Hab'']], Hbc' as [Hbc' | [Hbc' Hbc'']].
    + left. by eapply string_before_trans.
    + left. by rewrite <- Hbc'.
    + left. by rewrite Hab'.
    + right. split; [congruence | lia].
Qed.

Lemma sortResidueIds_sorted (rs : list ResidueSelection) :
  StronglySorted residue_order (Array_sort sortResidueIds rs).
Proof.
  eapply StronglySorted_weaken; [| apply (Array_sort_sorted sortResidueIds)].
  - intros a b. apply sortResidueIds_order.
  - intros a b. rewrite !sortResidueIds_order. apply residue_order_total.
  - intros a b c. rewrite !sortResidueIds_order. apply residue_order_trans.
Qed.

End ComparatorFacts.

(** ** The checks of [submitSearch] *)

Section CheckFacts.
Context `{H : Host}.
Implicit Types (m : gmap string (option Residue)).
Implicit Types (l : StructureSelectionHistoryEntry).
Implicit Types (ls : list StructureSelectionHistoryEntry).
Implicit Types (picks : list (ResidueSelection * Residue)).

Local Abbreviation models ls := (foldl JSSet.add JSSet.empty (entry_model <$> ls)).

Lemma elem_of_models ls (v : string) :
  v ∈ models ls <-> exists l, l ∈ ls /\ entry_model l = v.
Proof.
  rewrite JSSetFacts.elem_of_foldl_add, list_elem_of_fmap. unfold JSSet.empty.
  rewrite elem_of_nil. split.
  - intros [[] | (l & -> & Hl)]. eauto.
  - intros (l & Hl & <-). right. eauto.
Qed.

Lemma NoDup_models ls : NoDup (models ls).
Proof. apply JSSetFacts.NoDup_foldl_add, NoDup_nil_2. Qed.

Lemma models_single ls : single_model ls -> (1 <? JSSet.size (models ls))%nat = false.
Proof.
  intros Hs. apply Nat.ltb_ge. unfold JSSet.size.
  destruct ls as [| l0 ls']; [simpl; lia |].
  apply (JSSetFacts.NoDup_all_equal _ (entry_model l0)); [apply NoDup_models |].
  intros v (l & Hl & <-)%elem_of_models. apply Hs; [done | left].
Qed.

Lemma models_multi ls l1 l2 :
  l1 ∈ ls -> l2 ∈ ls -> entry_model l1 <> entry_model l2 ->
  (1 <? JSSet.size (models ls))%nat = true.
Proof.
  intros H1 H2 Hne. apply Nat.ltb_lt. unfold JSSet.size.
  apply (JSSetFacts.NoDup_two_members _ (entry_model l1) (entry_model l2));
    [apply elem_of_models | apply elem_of_models | done]; eauto.
Qed.

Lemma models_not_single ls :
  ~ single_model ls -> (1 <? JSSet.size (models ls))%nat = true.
Proof.
  intros Hn. destruct (1 <? JSSet.size (models ls))%nat eqn:E; [done |].
  exfalso. apply Hn. intros l1 l2 H1 H2.
  destruct (decide (entry_model l1 = entry_model l2)) as [| Hne]; [done |].
  rewrite (models_multi ls l1 l2) in E; done.
Qed.

Lemma models_first ls l0 :
  single_model (l0 :: ls) -> JSSet.first (models (l0 :: ls)) = Some (entry_model l0).
Proof.
  intros Hs. unfold JSSet.first.
  assert (entry_model l0 ∈ models (l0 :: ls)) as Hin.
  { apply elem_of_models. exists l0. split; [left | done]. }
  destruct (models (l0 :: ls)) as [| v s] eqn:E; [by apply elem_of_nil in Hin |].
  simpl. f_equal.
  assert (v ∈ models (l0 :: ls)) as (l & Hl & <-)%elem_of_models by (rewrite E; left).
  apply Hs; [done | left].
Qed.

Lemma polymeric_filter ls (rs : list ResidueSelection) :
  polymeric ls -> Forall2 (fun l r => resolve l = Some r) ls rs ->
  List.filter (fun v => rs_label_seq_id v =? 0) rs = [].
Proof.
  intros Hp Hrs. induction Hrs as [| l r ls rs Hr _ IH]; [done |]. simpl.
  destruct (Z.eqb_spec (rs_label_seq_id r) 0) as [Hz | _].
  - exfalso. apply (Hp l r); [left | done | done].
  - apply IH. intros l' r' Hl'. apply Hp. by right.
Qed.

Lemma non_polymeric_filter ls (rs : list ResidueSelection) l r :
  Forall2 (fun l r => resolve l = Some r) ls rs ->
  l ∈ ls -> resolve l = Some r -> rs_label_seq_id r = 0 ->
  (0 <? length (List.filter (fun v => (rs_label_seq_id v =? 0)%Z) rs))%nat = true.
Proof.
  intros Hrs Hl Hr Hz. apply Nat.ltb_lt.
  induction Hrs as [| l' r' ls rs Hr' _ IH]; [by apply elem_of_nil in Hl |].
  simpl. apply elem_of_cons in Hl as [<- | Hl].
  - assert (r' = r) as -> by congruence.
    rewrite Hz. simpl. lia.
  - destruct (rs_label_seq_id r' =? 0); simpl; [lia | by apply IH].
Qed.

(** A history that passes the three checks is dispatched. *)
Lemma submitSearch_valid m ls :
  Forall (ready m) (considered ls) ->
  single_model (considered ls) ->
  polymeric (considered ls) ->
  exists picks,
    Forall2 (pick_of m) (considered ls) picks /\
    submitSearch m ls =
      Opened (build_query (collected_of collected_init (considered ls) picks)).
Proof.
  intros (picks & Hps)%ready_picks Hs Hp. exists picks. split; [done |].
  rewrite (submitSearch_picks m ls picks Hps). cbv zeta. simpl pdbId.
  rewrite (models_single _ Hs).
  by rewrite (polymeric_filter _ _ Hp (picks_resolve _ _ _ Hps)).
Qed.

Lemma build_query_residue_ids (c : Collected) :
  residue_ids (value (parameters (build_query c)))
  = Array_sort sortResidueIds (residueIds c).
Proof. done. Qed.

End CheckFacts.

(** ** Properties of [submitSearch] *)

Section SortedQuery.
Context `{H : Host} {L : CollationLaws H}.
Implicit Types (m : gmap string (option Residue)).
Implicit Types (history : list StructureSelectionHistoryEntry).

(** C1, as the code has it.  A history of 3 to 10 entries that all
    resolve to one model entry id, none with [label_seq_id] 0, each
    resolvable and with a [Residue] in the map, is dispatched: the query's
    [residue_ids] are the residue selections of the history entries, one
    for each, rearranged into the order by [label_asym_id], then
    [struct_oper_id], both as [localeCompare] orders strings, then
    [label_seq_id] ascending.  The order of strings is the collation of
    the host, taken to be a strict total order; it need not be the order
    by the codes of the letters. *)
Theorem submitSearch_sorted_selectors m history :
  (MIN_MOTIF_SIZE <= length history <= MAX_MOTIF_SIZE)%nat ->
  single_model history ->
  polymeric history ->
  Forall (ready m) history ->
  exists q rs,
    submitSearch m history = Opened q /\
    Forall2 (fun l r => resolve l = Some r) history rs /\
    residue_ids (value (parameters q)) ≡ₚ rs /\
    length (residue_ids (value (parameters q))) = length history /\
    StronglySorted residue_order (residue_ids (value (parameters q))).
Proof.
  intros [_ Hlen] Hs Hp Hr.
  pose proof (considered_short history Hlen) as Hc.
  destruct (submitSearch_valid m history) as (picks & Hps & ->);
    rewrite ?Hc; [done .. |].
  rewrite Hc in Hps. eexists _, picks.*1. split; [done |].
  rewrite build_query_residue_ids. simpl residueIds.
  split_and!.
  - by eapply picks_resolve.
  - apply Array_sort_Permutation.
  - rewrite Array_sort_length, length_fmap. symmetry. by eapply Forall2_length.
  - apply sortResidueIds_sorted.
Qed.

End SortedQuery.

Section SubmitSearch.
Context `{H : Host}.
Implicit Types (m : gmap string (option Residue)).
Implicit Types (l : StructureSelectionHistoryEntry).
Implicit Types (history : list StructureSelectionHistoryEntry).

(** C2.  When two considered entries resolve to different model entry ids,
    [submitSearch] warns that motifs come from a single model and builds no
    query, whatever the number of entries and their [label_seq_id]: the
    check comes first after the loop. *)
Theorem submitSearch_multi_model m history l1 l2 :
  Forall (ready m) (considered history) ->
  l1 ∈ considered history -> l2 ∈ considered history ->
  entry_model l1 <> entry_model l2 ->
  submitSearch m history = Warned WARN_MULTI_MODEL.
Proof.
  intros (picks & Hps)%ready_picks H1 H2 Hne.
  rewrite (submitSearch_picks m history picks Hps). cbv zeta. simpl pdbId.
  by rewrite (models_multi _ l1 l2).
Qed.

(** C3.  When a considered entry has [label_seq_id] 0, [submitSearch]
    warns that selections may only contain polymeric entities if the
    considered entries resolve to a single model entry id; if they do not,
    the multi-model warning, which is checked before, is what it reports. *)
Theorem submitSearch_non_polymeric m history l r :
  Forall (ready m) (considered history) ->
  l ∈ considered history -> resolve l = Some r -> rs_label_seq_id r = 0 ->
  (single_model (considered history) ->
   submitSearch m history = Warned WARN_NON_POLYMERIC) /\
  (~ single_model (considered history) ->
   submitSearch m history = Warned WARN_MULTI_MODEL).
Proof.
  intros (picks & Hps)%ready_picks Hl Hr Hz.
  rewrite (submitSearch_picks m history picks Hps). cbv zeta. simpl pdbId.
  split.
  - intros Hs. rewrite (models_single _ Hs).
    by rewrite (non_polymeric_filter _ _ l r (picks_resolve _ _ _ Hps)).
  - intros Hn. by rewrite (models_not_single _ Hn).
Qed.

(** C4.  Of a history of more than 10 entries [submitSearch] visits the
    first 10, in the order of the history, and does what it does on those
    alone; when they are valid, the query has 10 residue selections, those
    of the first 10 entries. *)
Theorem submitSearch_first_ten m history :
  (MAX_MOTIF_SIZE < length history)%nat ->
  considered history = take 10 history /\
  submitSearch m history = submitSearch m (take 10 history) /\
  (Forall (ready m) (take 10 history) ->
   single_model (take 10 history) ->
   polymeric (take 10 history) ->
   exists q rs,
     submitSearch m history = Opened q /\
     Forall2 (fun l r => resolve l = Some r) (take 10 history) rs /\
     residue_ids (value (parameters q)) ≡ₚ rs /\
     length (residue_ids (value (parameters q))) = 10%nat).
Proof.
  intros Hlen.
  assert (considered history = take 10 history) as Hc.
  { apply considered_long. lia. }
  assert (considered (take 10 history) = take 10 history) as Hc'.
  { rewrite <- Hc. apply considered_idemp. }
  split_and!; [done | |].
  - unfold submitSearch. by rewrite Hc, Hc'.
  - intros Hr Hs Hp.
    destruct (submitSearch_valid m history) as (picks & Hps & ->);
      rewrite ?Hc; [done .. |].
    rewrite Hc in Hps. eexists _, picks.*1. split; [done |].
    rewrite build_query_residue_ids. simpl residueIds.
    split_and!.
    + by eapply picks_resolve.
    + apply Array_sort_Permutation.
    + rewrite Array_sort_length, length_fmap, <- (Forall2_length _ _ _ Hps).
      rewrite length_take. unfold MAX_MOTIF_SIZE in Hlen. lia.
Qed.

(** C5.  The size check after the loop is dead: the loop collects at most
    [MAX_MOTIF_SIZE] residue selections, so the guard is false whenever it
    is evaluated, and no call reports the maximum-size warning. *)
Theorem submitSearch_size_check_dead m history :
  (forall c, collect m collected_init (considered history) = Some c ->
             (MAX_MOTIF_SIZE <? length (residueIds c))%nat = false) /\
  submitSearch m history <> Warned WARN_MAX_SIZE.
Proof.
  split.
  - intros c (picks & Hps & ->)%collect_Some. apply Nat.ltb_ge.
    simpl. rewrite length_fmap, <- (Forall2_length _ _ _ Hps).
    apply considered_length.
  - destruct (collect m collected_init (considered history)) as [c |] eqn:E.
    + apply collect_Some in E as (picks & Hps & _).
      rewrite (submitSearch_picks m history picks Hps). cbv zeta.
      repeat case_match; discriminate.
    + unfold submitSearch. by rewrite E.
Qed.

(** C7.  In a call that dispatches a query, the [exchanges] of the query
    are those of the considered picks whose exchange set is not empty, in
    the order of the history: each with the residue selection of its pick
    and, as [allowed], the members of the pick's exchange set in the order
    the set enumerates them. *)
Theorem submitSearch_exchanges m history q :
  submitSearch m history = Opened q ->
  exists picks : list (ResidueSelection * Residue),
    Forall2 (pick_of m) (considered history) picks /\
    exchanges (parameters q) =
      (fun p => {| residue_id := p.1; allowed := JSSet.values (res_exchanges p.2) |})
        <$> List.filter (fun p => (0 <? JSSet.size (res_exchanges p.2))%nat) picks.
Proof.
  intros Hq. unfold submitSearch in Hq.
  destruct (collect m collected_init (considered history)) as [c |] eqn:E; [| done].
  apply collect_Some in E as (picks & Hps & ->). exists picks. split; [done |].
  repeat case_match; try discriminate. injection Hq as <-.
  simpl. unfold emitted. f_equal.
  apply List.filter_ext. intros [rid [e [| x xs]]]; done.
Qed.

(** C10.  [submitSearch] has no check of a minimal size: any history whose
    considered entries pass the checks is dispatched, with as many residue
    selections as entries were considered, also when there are fewer than
    [MIN_MOTIF_SIZE]; for the empty history the [data] of the query is
    [undefined].  The minimum only disables the menu item of [actions]. *)
Theorem submitSearch_no_minimum m history :
  Forall (ready m) (considered history) ->
  single_model (considered history) ->
  polymeric (considered history) ->
  (exists q,
     submitSearch m history = Opened q /\
     length (residue_ids (value (parameters q)))
       = Nat.min MAX_MOTIF_SIZE (length history) /\
     data (value (parameters q)) = entry_model <$> head history) /\
  item_disabled (actions history) = (length history <? MIN_MOTIF_SIZE)%nat.
Proof.
  intros Hr Hs Hp. split; [| done].
  destruct (submitSearch_valid m history) as (picks & Hps & ->); [done .. |].
  eexists. split; [done |]. split.
  - rewrite build_query_residue_ids, Array_sort_length. simpl residueIds.
    rewrite length_fmap, <- (Forall2_length _ _ _ Hps).
    unfold considered. rewrite length_take. lia.
  - simpl. destruct history as [| l0 history']; [done |].
    change (considered (l0 :: history'))
      with (l0 :: take (Nat.min 9 (length history')) history') in *.
    by rewrite models_first.
Qed.

End SubmitSearch.

(** ** The residue map: [updateResidues] and [add] *)

Section ResidueMapFacts.
Context `{H : Host}.
Implicit Types (m : gmap string (option Residue)).
Implicit Types (l : StructureSelectionHistoryEntry).
Implicit Types (history : list StructureSelectionHistoryEntry).

Lemma Map_has_true m l : Map_has m l = true <-> is_Some (m !! entry_id l).
Proof. unfold Map_has. apply bool_decide_eq_true. Qed.

Lemma Map_has_false m l : Map_has m l = false <-> m !! entry_id l = None.
Proof. unfold Map_has. rewrite bool_decide_eq_false. symmetry. apply eq_None_not_Some. Qed.

Lemma lookup_updateResidues_from m history (k : string) :
  forall acc : gmap string (option Residue),
  foldl (fun newResidueMap entry => Map_set newResidueMap entry (Map_get m entry))
        acc history !! k
  = if decide (k ∈ entry_id <$> history)
    then Some (from_option id None (m !! k))
    else acc !! k.
Proof.
  induction history as [| l history IH]; intros acc.
  - done.
  - rewrite fmap_cons. simpl foldl. rewrite IH.
    destruct (decide (k ∈ entry_id <$> history)) as [Hin | Hnin].
    + rewrite decide_True; [done | by right].
    + unfold Map_set, Map_get. destruct (decide (entry_id l = k)) as [<- | Hne].
      * rewrite decide_True by left. rewrite lookup_insert_eq.
        by destruct (m !! entry_id l).
      * rewrite lookup_insert_ne by done.
        rewrite decide_False; [done |].
        intros [? | ?]%elem_of_cons; congruence.
Qed.

Lemma lookup_updateResidues m history (k : string) :
  updateResidues m history !! k
  = if decide (k ∈ entry_id <$> history)
    then Some (from_option id None (m !! k))
    else None.
Proof.
  unfold updateResidues. rewrite lookup_updateResidues_from.
  by rewrite lookup_empty.
Qed.

(** The keys of the new map are the entries of the history. *)
Lemma updateResidues_keys m history l :
  Map_has (updateResidues m history) l = true <-> entry_id l ∈ entry_id <$> history.
Proof.
  rewrite Map_has_true, lookup_updateResidues.
  case_decide; split; try done; by intros [? ?].
Qed.

(** An entry of the history keeps what the old map held for it. *)
Lemma updateResidues_keeps m history l :
  l ∈ history -> Map_get (updateResidues m history) l = Map_get m l.
Proof.
  intros Hl. unfold Map_get at 1. rewrite lookup_updateResidues.
  rewrite decide_True by (apply list_elem_of_fmap; eauto).
  unfold Map_get. by destruct (m !! entry_id l).
Qed.

(** An entry that is not in the history is no key of the new map. *)
Lemma updateResidues_drops m history l :
  entry_id l ∉ entry_id <$> history -> Map_has (updateResidues m history) l = false.
Proof.
  intros Hl. apply Map_has_false. rewrite lookup_updateResidues.
  by rewrite decide_False.
Qed.

(** An entry of the history that the old map does not hold becomes a key
    that holds [undefined]. *)
Lemma updateResidues_untracked m history l :
  l ∈ history -> Map_get m l = None ->
  updateResidues m history !! entry_id l = Some None.
Proof.
  intros Hl Hm. rewrite lookup_updateResidues.
  rewrite decide_True by (apply list_elem_of_fmap; eauto).
  unfold Map_get in Hm. destruct (m !! entry_id l); simpl; by f_equal.
Qed.

(** C9.  A [Residue] made for an entry whose loci have a first element has
    as exchange set the native residue type alone, the [label_comp_id] at
    the first index of that first element.  It takes nothing from the map:
    [add], on an entry that is no key of the map, stores that [Residue],
    whatever the map held for the entry before [updateResidues] dropped
    it. *)
Theorem Residue_new_native l :
  resolvable l ->
  exists r t,
    Residue_new l = Some r /\
    native_type l = Some t /\
    entry r = l /\
    res_exchanges r = [t] /\
    (forall m i, Map_has m l = false ->
       add_step m l i = (Map_set m l (Some r), historyEntry (Some r) (i + 1))) /\
    (forall m history i, entry_id l ∉ entry_id <$> history ->
       Map_get (add_step (updateResidues m history) l i).1 l = Some r).
Proof.
  intros [loc Hloc]. unfold Residue_new, native_type. rewrite Hloc. simpl.
  eexists _, _. split_and!; [done .. | |].
  - intros m i Hm. unfold add_step, Residue_new. by rewrite Hm, Hloc.
  - intros m history i Hl. unfold add_step, Residue_new.
    rewrite (updateResidues_drops _ _ _ Hl), Hloc. simpl.
    unfold Map_get, Map_set. by rewrite lookup_insert_eq.
Qed.

(** C8, as the code has it.  One call of [toggleExchange] adds the code
    when the set lacks it and removes it when the set has it, and leaves
    the other codes alone, so the set may become empty.  After two calls
    with the same code the set has the members it had.  When the set
    lacked the code, the residue is as it was; when the set had it, the
    code is enumerated last. *)
Theorem toggleExchange_twice (r : Residue) (val : string) :
  hasExchange (toggleExchange r val) val = negb (hasExchange r val) /\
  (forall w, w <> val -> hasExchange (toggleExchange r val) w = hasExchange r w) /\
  (forall w, hasExchange (toggleExchange (toggleExchange r val) val) w = hasExchange r w) /\
  (hasExchange r val = false -> toggleExchange (toggleExchange r val) val = r) /\
  (hasExchange r val = true ->
   res_exchanges (toggleExchange (toggleExchange r val) val)
   = JSSet.delete (res_exchanges r) val ++ [val]).
Proof.
  destruct r as [e s]. unfold toggleExchange, hasExchange. simpl.
  assert (forall s1 s2 w, (w ∈ s1 <-> w ∈ s2) -> JSSet.has s1 w = JSSet.has s2 w) as Hext.
  { intros s1 s2 w Hw. destruct (JSSet.has s2 w) eqn:E.
    - apply JSSetFacts.has_true. apply Hw. by apply JSSetFacts.has_true.
    - apply JSSetFacts.has_false. rewrite Hw. by apply JSSetFacts.has_false. }
  destruct (JSSet.has s val) eqn:E; simpl.
  - pose proof (proj1 (JSSetFacts.has_true _ _) E) as Hin.
    assert (JSSet.has (JSSet.delete s val) val = false) as Hdel.
    { apply JSSetFacts.has_false. rewrite JSSetFacts.elem_of_delete. tauto. }
    rewrite Hdel. simpl. split_and!; [done | | | done |].
    + intros w Hw. apply Hext. rewrite JSSetFacts.elem_of_delete. tauto.
    + intros w. apply Hext.
      rewrite JSSetFacts.elem_of_add, JSSetFacts.elem_of_delete.
      destruct (decide (w = val)) as [-> | ?]; tauto.
    + intros _. unfold JSSet.add. by rewrite Hdel.
  - pose proof (proj1 (JSSetFacts.has_false _ _) E) as Hnin.
    assert (JSSet.has (JSSet.add s val) val = true) as Hadd.
    { apply JSSetFacts.has_true. rewrite JSSetFacts.elem_of_add. tauto. }
    rewrite Hadd. simpl. rewrite JSSetFacts.delete_add_absent by done.
    split_and!; [done | | done | done | done].
    intros w Hw. apply Hext. rewrite JSSetFacts.elem_of_add. tauto.
Qed.

End ResidueMapFacts.

(** ** The checks that compute decide the conditions *)

Section Deciders.
Context `{H : Host}.
Implicit Types (m : gmap string (option Residue)).
Implicit Types (ls : list StructureSelectionHistoryEntry).

Lemma readyb_ready m ls : forallb (readyb m) ls = true -> Forall (ready m) ls.
Proof.
  rewrite forallb_forall, Forall_forall. intros Hb l Hl.
  specialize (Hb l (proj1 (list_elem_of_In _ _) Hl)).
  unfold readyb in Hb. unfold ready, resolvable, tracked.
  destruct (Location_set (entry_loci l)); [| done].
  destruct (Map_get m l); [| done]. split; by eexists.
Qed.

Lemma single_modelb_single ls : single_modelb ls = true -> single_model ls.
Proof.
  unfold single_modelb. rewrite forallb_forall. intros Hb l1 l2 H1 H2.
  specialize (Hb l1 (proj1 (list_elem_of_In _ _) H1)).
  rewrite forallb_forall in Hb.
  apply String.eqb_eq, Hb. by apply list_elem_of_In.
Qed.

Lemma polymericb_polymeric ls : polymericb ls = true -> polymeric ls.
Proof.
  unfold polymericb. rewrite forallb_forall. intros Hb l r Hl Hr.
  specialize (Hb l (proj1 (list_elem_of_In _ _) Hl)). rewrite Hr in Hb.
  apply negb_true_iff in Hb. by apply Z.eqb_neq.
Qed.

End Deciders.

(** ** The concrete host *)

Lemma demoHost_collation : CollationLaws demoHost.
Proof.
  split; simpl; unfold demo_compare.
  - intros a b. destruct (String.compare a b) eqn:E; try lia.
    intros _. by apply String.compare_eq_iff.
  - intros a b. rewrite String.compare_antisym.
    destruct (String.compare b a); simpl; lia.
  - intros a b c. destruct (String.compare a b) eqn:E1; try lia.
    destruct (String.compare b c) eqn:E2; try lia. intros _ _.
    apply String_as_OT.cmp_lt in E1, E2.
    pose proof (String_as_OT.lt_trans _ _ _ E1 E2) as E3.
    apply String_as_OT.cmp_lt in E3. unfold String_as_OT.cmp in E3.
    rewrite E3. lia.
Qed.

(** ** The properties on concrete histories *)

Lemma submitSearch_sorted_selectors_witness :
  (MIN_MOTIF_SIZE <= length (demo_history 3) <= MAX_MOTIF_SIZE)%nat /\
  single_model (demo_history 3) /\
  polymeric (demo_history 3) /\
  Forall (ready (demo_map (demo_history 3))) (demo_history 3) /\
  exists q rs,
    submitSearch (demo_map (demo_history 3)) (demo_history 3) = Opened q /\
    Forall2 (fun l r => resolve l = Some r) (demo_history 3) rs /\
    residue_ids (value (parameters q)) ≡ₚ rs /\
    length (residue_ids (value (parameters q))) = length (demo_history 3) /\
    StronglySorted (@residue_order demoHost) (residue_ids (value (parameters q))).
Proof.
  assert (MIN_MOTIF_SIZE <= length (demo_history 3) <= MAX_MOTIF_SIZE)%nat as H1
    by (vm_compute; lia).
  assert (single_model (demo_history 3)) as H2
    by (apply single_modelb_single; vm_compute; reflexivity).
  assert (polymeric (demo_history 3)) as H3
    by (apply polymericb_polymeric; vm_compute; reflexivity).
  assert (Forall (ready (demo_map (demo_history 3))) (demo_history 3)) as H4
    by (apply readyb_ready; vm_compute; reflexivity).
  exact (conj H1 (conj H2 (conj H3 (conj H4
    (@submitSearch_sorted_selectors demoHost demoHost_collation _ _ H1 H2 H3 H4))))).
Defined.

Lemma submitSearch_multi_model_witness :
  Forall (ready (demo_map demo_mixed)) (considered demo_mixed) /\
  demo_entry demo_1abc 0 ∈ considered demo_mixed /\
  demo_entry demo_2xyz 1 ∈ considered demo_mixed /\
  entry_model (demo_entry demo_1abc 0) <> entry_model (demo_entry demo_2xyz 1) /\
  submitSearch (demo_map demo_mixed) demo_mixed = Warned WARN_MULTI_MODEL.
Proof.
  assert (Forall (ready (demo_map demo_mixed)) (considered demo_mixed)) as H1
    by (apply readyb_ready; vm_compute; reflexivity).
  assert (demo_entry demo_1abc 0 ∈ considered demo_mixed) as H2 by left.
  assert (demo_entry demo_2xyz 1 ∈ considered demo_mixed) as H3 by (right; left).
  assert (entry_model (demo_entry demo_1abc 0) <> entry_model (demo_entry demo_2xyz 1))
    as H4 by (vm_compute; discriminate).
  exact (conj H1 (conj H2 (conj H3 (conj H4
    (submitSearch_multi_model _ _ _ _ H1 H2 H3 H4))))).
Defined.

Lemma submitSearch_non_polymeric_witness :
  Forall (ready (demo_map demo_water)) (considered demo_water) /\
  demo_entry demo_1abc 11 ∈ considered demo_water /\
  resolve (demo_entry demo_1abc 11)
    = Some {| rs_label_asym_id := "D"; rs_struct_oper_id := "1"; rs_label_seq_id := 0 |} /\
  (single_model (considered demo_water) ->
   submitSearch (demo_map demo_water) demo_water = Warned WARN_NON_POLYMERIC) /\
  (~ single_model (considered demo_water) ->
   submitSearch (demo_map demo_water) demo_water = Warned WARN_MULTI_MODEL).
Proof.
  assert (Forall (ready (demo_map demo_water)) (considered demo_water)) as H1
    by (apply readyb_ready; vm_compute; reflexivity).
  assert (demo_entry demo_1abc 11 ∈ considered demo_water) as H2
    by (right; right; left).
  assert (resolve (demo_entry demo_1abc 11)
    = Some {| rs_label_asym_id := "D"; rs_struct_oper_id := "1"; rs_label_seq_id := 0 |})
    as H3 by reflexivity.
  exact (conj H1 (conj H2 (conj H3
    (submitSearch_non_polymeric _ _ _ _ H1 H2 H3 eq_refl)))).
Defined.

Lemma submitSearch_first_ten_witness :
  (MAX_MOTIF_SIZE < length (demo_history 11))%nat /\
  considered (demo_history 11) = take 10 (demo_history 11) /\
  submitSearch (demo_map (demo_history 11)) (demo_history 11)
    = submitSearch (demo_map (demo_history 11)) (take 10 (demo_history 11)) /\
  (Forall (ready (demo_map (demo_history 11))) (take 10 (demo_history 11)) ->
   single_model (take 10 (demo_history 11)) ->
   polymeric (take 10 (demo_history 11)) ->
   exists q rs,
     submitSearch (demo_map (demo_history 11)) (demo_history 11) = Opened q /\
     Forall2 (fun l r => resolve l = Some r) (take 10 (demo_history 11)) rs /\
     residue_ids (value (parameters q)) ≡ₚ rs /\
     length (residue_ids (value (parameters q))) = 10%nat).
Proof.
  assert (MAX_MOTIF_SIZE < length (demo_history 11))%nat as H1 by (vm_compute; lia).
  exact (conj H1 (submitSearch_first_ten _ _ H1)).
Defined.

Lemma submitSearch_exchanges_witness :
  submitSearch demo_map_toggled (demo_history 3) = Opened demo_query_toggled /\
  exists picks : list (ResidueSelection * Residue),
    Forall2 (pick_of demo_map_toggled) (considered (demo_history 3)) picks /\
    exchanges (parameters demo_query_toggled) =
      (fun p => {| residue_id := p.1; allowed := JSSet.values (res_exchanges p.2) |})
        <$> List.filter (fun p => (0 <? JSSet.size (res_exchanges p.2))%nat) picks.
Proof.
  assert (submitSearch demo_map_toggled (demo_history 3) = Opened demo_query_toggled)
    as H1 by (vm_compute; reflexivity).
  exact (conj H1 (submitSearch_exchanges _ _ _ H1)).
Defined.

Lemma submitSearch_no_minimum_witness :
  Forall (ready (demo_map (demo_history 2))) (considered (demo_history 2)) /\
  single_model (considered (demo_history 2)) /\
  polymeric (considered (demo_history 2)) /\
  (exists q,
     submitSearch (demo_map (demo_history 2)) (demo_history 2) = Opened q /\
     length (residue_ids (value (parameters q)))
       = Nat.min MAX_MOTIF_SIZE (length (demo_history 2)) /\
     data (value (parameters q)) = entry_model <$> head (demo_history 2)) /\
  item_disabled (actions (demo_history 2))
    = (length (demo_history 2) <? MIN_MOTIF_SIZE)%nat.
Proof.
  assert (Forall (ready (demo_map (demo_history 2))) (considered (demo_history 2))) as H1
    by (apply readyb_ready; vm_compute; reflexivity).
  assert (single_model (considered (demo_history 2))) as H2
    by (apply single_modelb_single; vm_compute; reflexivity).
  assert (polymeric (considered (demo_history 2))) as H3
    by (apply polymericb_polymeric; vm_compute; reflexivity).
  exact (conj H1 (conj H2 (conj H3 (submitSearch_no_minimum _ _ H1 H2 H3)))).
Defined.

Lemma Residue_new_native_witness :
  resolvable (demo_entry demo_1abc 0) /\
  exists r t,
    Residue_new (demo_entry demo_1abc 0) = Some r /\
    native_type (demo_entry demo_1abc 0) = Some t /\
    entry r = demo_entry demo_1abc 0 /\
    res_exchanges r = [t] /\
    (forall m i, Map_has m (demo_entry demo_1abc 0) = false ->
       add_step m (demo_entry demo_1abc 0) i
       = (Map_set m (demo_entry demo_1abc 0) (Some r), historyEntry (Some r) (i + 1))) /\
    (forall m history i, entry_id (demo_entry demo_1abc 0) ∉ entry_id <$> history ->
       Map_get (add_step (updateResidues m history) (demo_entry demo_1abc 0) i).1
               (demo_entry demo_1abc 0) = Some r).
Proof.
  assert (resolvable (demo_entry demo_1abc 0)) as H1 by (eexists; reflexivity).
  exact (conj H1 (Residue_new_native _ H1)).
Defined.

(** C8 as stated fails where the code is in the set and is not its last
    member.  The residue made for the first pick has "ALA"; "GLY" is
    switched on, then "ALA" is toggled twice: the set enumerates "GLY"
    before "ALA" where it had "ALA" first, and that is the order of the
    [allowed] list of a query. *)
Lemma toggleExchange_twice_reorders :
  exists r0 : @Residue demoHost,
    Residue_new (demo_entry demo_1abc 0) = Some r0 /\
    let r := toggleExchange r0 "GLY" in
    res_exchanges r = ["ALA"%string; "GLY"%string] /\
    res_exchanges (toggleExchange (toggleExchange r "ALA") "ALA")
      = ["GLY"%string; "ALA"%string] /\
    toggleExchange (toggleExchange r "ALA") "ALA" <> r.
Proof.
  eexists. split; [reflexivity |]. cbv zeta.
  split; [reflexivity |]. split; [reflexivity |].
  intros Heq. apply (f_equal res_exchanges) in Heq. vm_compute in Heq. discriminate.
Qed.

(** C6 on the code.  Eleven picks, of which [add] has given the first ten
    a [Residue]; the first pick is removed and [updateResidues] runs over
    the ten that remain.  The eleventh pick, now tenth, was no key of the
    old map: it becomes a key that holds [undefined], no [Residue] is made
    for it, and the render that follows finds the key, reads [undefined]
    and throws. *)
Theorem updateResidues_leaves_undefined :
  let history := demo_history 11 in
  let m := demo_map history in
  let history' := tail history in
  let l := demo_entry demo_1abc 10 in
  history' !! 9%nat = Some l /\
  Map_has m l = false /\
  updateResidues m history' !! entry_id l = Some None /\
  Map_has (updateResidues m history') l = true /\
  Map_get (updateResidues m history') l = None /\
  (add (updateResidues m history') history').2 = None /\
  submitSearch (updateResidues m history') history' = TypeError.
Proof.
  cbv zeta. split_and!; vm_compute; reflexivity.
Qed.

(** The example of the specification: the picks A 5, A 2 and B 1 of one
    model, in this order, are sent as A 2, A 5, B 1, and each allows its
    own residue type, listed in the order of the picks. *)
Example submitSearch_three_picks :
  submitSearch (demo_map (demo_history 3)) (demo_history 3)
  = Opened
      {| q_type := "terminal";
         service := "strucmotif";
         parameters :=
           {| value :=
                {| data := Some "1ABC"%string;
                   residue_ids :=
                     [ {| rs_label_asym_id := "A"; rs_struct_oper_id := "1"; rs_label_seq_id := 2 |};
                       {| rs_label_asym_id := "A"; rs_struct_oper_id := "1"; rs_label_seq_id := 5 |};
                       {| rs_label_asym_id := "B"; rs_struct_oper_id := "1"; rs_label_seq_id := 1 |} ] |};
              score_cutoff := 0;
              exchanges :=
                [ {| residue_id :=
                       {| rs_label_asym_id := "A"; rs_struct_oper_id := "1"; rs_label_seq_id := 5 |};
                     allowed := ["ALA"%string] |};
                  {| residue_id :=
                       {| rs_label_asym_id := "A"; rs_struct_oper_id := "1"; rs_label_seq_id := 2 |};
                     allowed := ["GLY"%string] |};
                  {| residue_id :=
                       {| rs_label_asym_id := "B"; rs_struct_oper_id := "1"; rs_label_seq_id := 1 |};
                     allowed := ["SER"%string] |} ] |} |}.
Proof. vm_compute. reflexivity. Qed.

(** The empty history is dispatched too, with no [data]. *)
Example submitSearch_no_picks :
  @submitSearch demoHost ∅ []
  = Opened
      {| q_type := "terminal";
         service := "strucmotif";
         parameters :=
           {| value := {| data := None; residue_ids := [] |};
              score_cutoff := 0;
              exchanges := [] |} |}.
Proof. reflexivity. Qed.

(** ** More on [submitSearch] *)

Section SubmitSearchMore.
Context `{H : Host}.
Implicit Types (m : gmap string (option Residue)).
Implicit Types (l : StructureSelectionHistoryEntry).
Implicit Types (history : list StructureSelectionHistoryEntry).

Lemma submitSearch_ready_outcome m history :
  Forall (ready m) (considered history) -> submitSearch m history <> TypeError.
Proof.
  intros (picks & Hps)%ready_picks.
  rewrite (submitSearch_picks m history picks Hps). cbv zeta.
  repeat case_match; discriminate.
Qed.

(** X1.  [submitSearch] dies on a [TypeError] exactly when the loci of a
    considered entry have no first element or the map holds no [Residue]
    for it. *)
Theorem submitSearch_throws_iff m history :
  submitSearch m history = TypeError <-> ~ Forall (ready m) (considered history).
Proof.
  split.
  - intros Ht Hr. by apply (submitSearch_ready_outcome m history).
  - apply submitSearch_not_ready.
Qed.

(** What a call that dispatches a query has gone through. *)
Lemma submitSearch_Opened_inv m history q :
  submitSearch m history = Opened q ->
  exists picks,
    Forall2 (pick_of m) (considered history) picks /\
    single_model (considered history) /\
    polymeric (considered history) /\
    q = build_query (collected_of collected_init (considered history) picks).
Proof.
  intros Hq.
  destruct (collect m collected_init (considered history)) as [c |] eqn:E;
    [| unfold submitSearch in Hq; by rewrite E in Hq].
  apply collect_Some in E as (picks & Hps & _). exists picks. split; [done |].
  rewrite (submitSearch_picks m history picks Hps) in Hq. cbv zeta in Hq.
  simpl pdbId in Hq.
  assert (single_model (considered history)) as Hs.
  { intros l1 l2 H1 H2.
    destruct (decide (entry_model l1 = entry_model l2)) as [| Hne]; [done |].
    by rewrite (models_multi _ l1 l2) in Hq. }
  rewrite (models_single _ Hs) in Hq.
  assert (polymeric (considered history)) as Hp.
  { intros l r Hl Hres Hz.
    by rewrite (non_polymeric_filter _ _ l r (picks_resolve _ _ _ Hps)) in Hq. }
  rewrite (polymeric_filter _ _ Hp (picks_resolve _ _ _ Hps)) in Hq.
  split_and!; [done | done |]. by injection Hq as <-.
Qed.

(** X2.  [submitSearch] dispatches a query exactly when the loop gets past
    every considered entry, the considered entries resolve to one model
    entry id and none of them has [label_seq_id] 0. *)
Theorem submitSearch_opens_iff m history :
  (exists q, submitSearch m history = Opened q) <->
  Forall (ready m) (considered history) /\
  single_model (considered history) /\
  polymeric (considered history).
Proof.
  split.
  - intros [q (picks & Hps & Hs & Hp & _)%submitSearch_Opened_inv].
    split_and!; [| done | done]. apply ready_picks. eauto.
  - intros (Hr & Hs & Hp).
    destruct (submitSearch_valid m history) as (picks & _ & ->); eauto.
Qed.

(** X3.  A dispatched query is a terminal node of the strucmotif service
    with score cutoff 0; its [data] is the model entry id of the first
    history entry, and it has one residue selection for each considered
    entry. *)
Theorem submitSearch_query_shape m history q :
  submitSearch m history = Opened q ->
  q_type q = "terminal"%string /\
  service q = "strucmotif"%string /\
  score_cutoff (parameters q) = 0 /\
  data (value (parameters q)) = entry_model <$> head history /\
  length (residue_ids (value (parameters q))) = length (considered history).
Proof.
  intros (picks & Hps & Hs & Hp & ->)%submitSearch_Opened_inv.
  split_and!; [done .. | |].
  - simpl. destruct history as [| l0 history']; [done |].
    change (considered (l0 :: history'))
      with (l0 :: take (Nat.min 9 (length history')) history') in *.
    by rewrite models_first.
  - rewrite build_query_residue_ids, Array_sort_length. simpl residueIds.
    rewrite length_fmap. symmetry. by eapply Forall2_length.
Qed.

(** X4.  Every exchange of a dispatched query is about one of the residue
    selections of the query and allows at least one residue type; there
    are no more exchanges than residue selections. *)
Theorem submitSearch_exchanges_consistent m history q :
  submitSearch m history = Opened q ->
  Forall (fun ex => residue_id ex ∈ residue_ids (value (parameters q)) /\
                    allowed ex <> [])
         (exchanges (parameters q)) /\
  (length (exchanges (parameters q))
   <= length (residue_ids (value (parameters q))))%nat.
Proof.
  intros Hq. unfold submitSearch in Hq.
  destruct (collect m collected_init (considered history)) as [c |] eqn:E; [| done].
  apply collect_Some in E as (picks & Hps & ->).
  repeat case_match; try discriminate. injection Hq as <-.
  rewrite build_query_residue_ids. simpl. unfold emitted. split.
  - apply Forall_forall. intros ex (p & -> & Hp)%list_elem_of_fmap.
    apply list_elem_of_In, filter_In in Hp as [Hp Hne]. split.
    + rewrite (Array_sort_Permutation sortResidueIds picks.*1).
      apply list_elem_of_fmap. exists p. split; [done | by apply list_elem_of_In].
    + unfold exchange_of, has_exchanges in *. simpl. by destruct (res_exchanges p.2).
  - rewrite Array_sort_length, !length_fmap. apply filter_length_le.
Qed.

Lemma collect_step_first_element_only m acc l :
  collect_step m acc (first_element_only l) = collect_step m acc l.
Proof.
  unfold collect_step, Location_set, Map_get, first_element_only. simpl.
  by destruct (loci_elements (entry_loci l)).
Qed.

Lemma collect_first_element_only m (ls : list StructureSelectionHistoryEntry) :
  forall acc, collect m acc (first_element_only <$> ls) = collect m acc ls.
Proof.
  induction ls as [| l ls IH]; intros acc; [done |]. simpl.
  rewrite collect_step_first_element_only.
  destruct (collect_step m acc l); [apply IH | done].
Qed.

(** X5.  Of the loci of an entry only the first element is read: cutting
    the loci of every history entry down to their first element changes
    neither what [submitSearch] does nor the native residue type a new
    [Residue] starts with. *)
Theorem submitSearch_first_element_only m history :
  submitSearch m (first_element_only <$> history) = submitSearch m history /\
  Forall (fun l => exchanges_of_new (first_element_only l) = exchanges_of_new l) history.
Proof.
  split.
  - unfold submitSearch, considered.
    rewrite length_fmap, <- fmap_take. by rewrite collect_first_element_only.
  - apply Forall_forall. intros l _.
    unfold exchanges_of_new, Residue_new, Location_set, first_element_only. simpl.
    by destruct (loci_elements (entry_loci l)).
Qed.

End SubmitSearchMore.

(** ** The order of the residue selections is canonical *)

Section CanonicalOrder.
Context `{H : Host} {L : CollationLaws H}.
Implicit Types (m : gmap string (option Residue)).
Implicit Types (history : list StructureSelectionHistoryEntry).

Lemma string_before_asym (a b : string) : string_before a b -> ~ string_before b a.
Proof.
  intros Hab Hba. apply (string_before_irrefl a). by eapply string_before_trans.
Qed.

Lemma residue_order_antisym (a b : ResidueSelection) :
  residue_order a b -> residue_order b a -> a = b.
Proof.
  unfold residue_order. destruct a as [a1 a2 a3], b as [b1 b2 b3]. simpl.
  intros [Hab | [-> Hab]] [Hba | [Heq Hba]].
  - by destruct (string_before_asym _ _ Hab).
  - subst. by destruct (string_before_irrefl _ Hab).
  - by destruct (string_before_irrefl _ Hba).
  - destruct Hab as [Hab | [-> Hab]], Hba as [Hba | [Heq' Hba]].
    + by destruct (string_before_asym _ _ Hab).
    + subst. by destruct (string_before_irrefl _ Hab).
    + by destruct (string_before_irrefl _ Hba).
    + f_equal. lia.
Qed.

(** X6.  The comparator is consistent: it returns 0 for equal residue
    selections only, and swapping its arguments swaps the sign of what it
    returns. *)
Theorem sortResidueIds_consistent (a b : ResidueSelection) :
  (sortResidueIds a b = 0 <-> a = b) /\
  (sortResidueIds a b < 0 <-> 0 < sortResidueIds b a).
Proof.
  destruct a as [a1 a2 a3], b as [b1 b2 b3]. unfold sortResidueIds. simpl.
  rewrite (String.eqb_sym b1 a1), (String.eqb_sym b2 a2).
  destruct (String.eqb_spec a1 b1) as [-> | Ha]; simpl.
  - destruct (String.eqb_spec a2 b2) as [-> | Ho]; simpl.
    + destruct (Z.ltb_spec a3 b3), (Z.gtb_spec a3 b3), (Z.ltb_spec b3 a3),
        (Z.gtb_spec b3 a3); try lia; split; split;
        try lia; try (intros [= ?]; lia); intros; f_equal; lia.
    + pose proof (localeCompare_ne _ _ Ho).
      pose proof (localeCompare_antisym a2 b2). split; [| done].
      split; [lia | congruence].
  - pose proof (localeCompare_ne _ _ Ha).
    pose proof (localeCompare_antisym a1 b1). split; [| done].
    split; [lia | congruence].
Qed.

Lemma sorted_selectors_unique (rs1 rs2 : list ResidueSelection) :
  rs1 ≡ₚ rs2 -> Array_sort sortResidueIds rs1 = Array_sort sortResidueIds rs2.
Proof.
  intros Hp.
  assert (AntiSymm eq residue_order) as Hanti.
  { intros a b. apply residue_order_antisym. }
  apply (StronglySorted_unique residue_order); [apply sortResidueIds_sorted .. |].
  by rewrite !Array_sort_Permutation.
Qed.

Lemma resolved_fmap (ls : list StructureSelectionHistoryEntry)
    (rs : list ResidueSelection) (d : ResidueSelection) :
  Forall2 (fun l r => resolve l = Some r) ls rs ->
  rs = (fun l => default d (resolve l)) <$> ls.
Proof.
  induction 1 as [| l r ls rs Hr _ IH]; [done |]. simpl. rewrite Hr. simpl.
  by f_equal.
Qed.

Lemma first_model_head (ls : list StructureSelectionHistoryEntry) :
  single_model ls ->
  JSSet.first (foldl JSSet.add JSSet.empty (entry_model <$> ls))
  = entry_model <$> head ls.
Proof.
  intros Hs. destruct ls as [| l0 ls]; [done |]. by apply models_first.
Qed.

(** X7.  The residue selections of a query do not depend on the order of
    the picks: a history of at most 10 entries that is dispatched is also
    dispatched in any other order, with the same [residue_ids] and the
    same [data]. *)
Theorem submitSearch_pick_order m history1 history2 q1 :
  history1 ≡ₚ history2 ->
  (length history1 <= MAX_MOTIF_SIZE)%nat ->
  submitSearch m history1 = Opened q1 ->
  exists q2,
    submitSearch m history2 = Opened q2 /\
    residue_ids (value (parameters q2)) = residue_ids (value (parameters q1)) /\
    data (value (parameters q2)) = data (value (parameters q1)).
Proof.
  intros Hperm Hlen (picks1 & Hps1 & Hs1 & Hp1 & ->)%submitSearch_Opened_inv.
  rewrite (considered_short history1 Hlen) in *.
  assert (considered history2 = history2) as Hc2.
  { apply considered_short. by rewrite <- Hperm. }
  assert (single_model history2) as Hs2.
  { intros l1 l2 H1 H2. apply Hs1; by rewrite Hperm. }
  assert (polymeric history2) as Hp2.
  { intros l r Hl. apply Hp1. by rewrite Hperm. }
  destruct (submitSearch_valid m history2) as (picks2 & Hps2 & ->); rewrite ?Hc2.
  - rewrite <- Hperm. apply ready_picks. eauto.
  - done.
  - done.
  - rewrite Hc2 in Hps2. eexists. split; [done |].
    rewrite !build_query_residue_ids. simpl. split.
    + apply sorted_selectors_unique.
      set (d := {| rs_label_asym_id := ""; rs_struct_oper_id := ""; rs_label_seq_id := 0 |}).
      rewrite (resolved_fmap _ _ d (picks_resolve _ _ _ Hps1)).
      rewrite (resolved_fmap _ _ d (picks_resolve _ _ _ Hps2)).
      by rewrite Hperm.
    + rewrite !first_model_head by done.
      destruct history1 as [| l1 h1].
      * by apply Permutation_nil_l in Hperm as ->.
      * destruct history2 as [| l2 h2]; [by apply Permutation_nil_r in Hperm |].
        simpl. f_equal. apply Hs2; [left |]. rewrite <- Hperm. left.
Qed.

End CanonicalOrder.

(** ** The bookkeeping of [add] *)

Section AddFacts.
Context `{H : Host}.
Implicit Types (m : gmap string (option Residue)).
Implicit Types (l : StructureSelectionHistoryEntry).
Implicit Types (ls history : list StructureSelectionHistoryEntry).

Lemma rendered_considered history : rendered history = considered history.
Proof. unfold rendered, considered, MAX_MOTIF_SIZE. by rewrite Nat.min_comm. Qed.

Lemma add_rendered m history : add m history = add_loop m (rendered history) 0 [].
Proof. done. Qed.

(** What a turn that does not throw has done. *)
Lemma add_step_Some m l i m1 row :
  add_step m l i = (m1, Some row) ->
  exists r,
    row = {| row_key := entry_id (entry r); row_idx := i + 1; row_residue := r |} /\
    m1 !! entry_id l = Some (Some r) /\
    ((m !! entry_id l = Some (Some r) /\ m1 = m) \/
     (m !! entry_id l = None /\ Residue_new l = Some r /\
      m1 = <[entry_id l := Some r]> m)).
Proof.
  unfold add_step. destruct (Map_has m l) eqn:Eh.
  - apply Map_has_true in Eh as [v Hv]. unfold Map_get. rewrite Hv.
    destruct v as [r |]; simpl; [| done]. intros [= <- <-]. eauto 10.
  - apply Map_has_false in Eh. destruct (Residue_new l) as [r |]; simpl; [| done].
    intros [= <- <-]. exists r. unfold Map_set. rewrite lookup_insert_eq. eauto 10.
Qed.

Lemma add_step_keeps m l i (k : string) (v : option Residue) :
  m !! k = Some v -> (add_step m l i).1 !! k = Some v.
Proof.
  intros Hk. unfold add_step. destruct (Map_has m l) eqn:Eh; [done |].
  apply Map_has_false in Eh. destruct (Residue_new l); [| done]. simpl.
  unfold Map_set. rewrite lookup_insert_ne; [done | congruence].
Qed.

Lemma add_loop_keeps ls : forall m i acc (k : string) (v : option Residue),
  m !! k = Some v -> (add_loop m ls i acc).1 !! k = Some v.
Proof.
  induction ls as [| l ls IH]; intros m i acc k v Hk; [done |]. simpl.
  pose proof (add_step_keeps m l i k v Hk) as Hk1.
  destruct (add_step m l i) as [m1 [row |]]; [by apply IH | done].
Qed.

Lemma add_step_new m l i (k : string) (v : option Residue) :
  (add_step m l i).1 !! k = Some v ->
  m !! k = Some v \/
  (entry_id l = k /\ m !! k = None /\ exists r, Residue_new l = Some r /\ v = Some r).
Proof.
  unfold add_step. destruct (Map_has m l) eqn:Eh; [by left |].
  apply Map_has_false in Eh. destruct (Residue_new l) as [r |]; [| by left]. simpl.
  unfold Map_set. destruct (decide (entry_id l = k)) as [<- | Hne].
  - rewrite lookup_insert_eq. intros [= <-]. right. eauto.
  - rewrite lookup_insert_ne by done. by left.
Qed.

Lemma add_loop_new ls : forall m i acc (k : string) (v : option Residue),
  (add_loop m ls i acc).1 !! k = Some v ->
  m !! k = Some v \/
  exists l r, l ∈ ls /\ entry_id l = k /\ m !! k = None /\
              Residue_new l = Some r /\ v = Some r.
Proof.
  induction ls as [| l ls IH]; intros m i acc k v; [by left |]. simpl.
  pose proof (add_step_new m l i k v) as Hstep.
  pose proof (fun v' => add_step_keeps m l i k v') as Hkeep.
  destruct (add_step m l i) as [m1 [row |]]; simpl in *.
  - intros [Hk | (l' & r & Hl' & Hid & Hnone & Hr & ->)]%IH.
    + destruct (Hstep Hk) as [? | (Hid & Hnone & r & Hr & ->)]; [by left | right].
      exists l, r. split_and!; [left | done ..].
    + right. exists l', r. split_and!; [by right | done | | done ..].
      destruct (m !! k) as [v' |] eqn:E; [| done].
      rewrite (Hkeep v' eq_refl) in Hnone. done.
  - intros Hk. destruct (Hstep Hk) as [? | (Hid & Hnone & r & Hr & ->)]; [by left | right].
    exists l, r. split_and!; [left | done ..].
Qed.

(** X8.  [add] only adds to the map: what the map held it still holds,
    stale entries included, and a new key is the id of one of the entries
    it visits, with the [Residue] made for that entry. *)
Theorem add_only_adds m history :
  (forall (k : string) (v : option Residue),
     m !! k = Some v -> (add m history).1 !! k = Some v) /\
  (forall (k : string) (v : option Residue),
     (add m history).1 !! k = Some v ->
     m !! k = Some v \/
     exists l r, l ∈ rendered history /\ entry_id l = k /\ m !! k = None /\
                 Residue_new l = Some r /\ v = Some r).
Proof.
  split; intros k v.
  - apply add_loop_keeps.
  - apply add_loop_new.
Qed.

Lemma add_loop_tracks ls : forall m i acc m' rows,
  add_loop m ls i acc = (m', Some rows) -> Forall (tracked m') ls.
Proof.
  induction ls as [| l ls IH]; intros m i acc m' rows Hloop; [constructor |].
  simpl in Hloop. destruct (add_step m l i) as [m1 [row |]] eqn:E; [| done].
  constructor; [| by eapply IH].
  apply add_step_Some in E as (r & _ & Hr & _).
  pose proof (add_loop_keeps ls m1 (S i) (acc ++ [row]) _ _ Hr) as Hk.
  rewrite Hloop in Hk. simpl in Hk.
  unfold tracked, Map_get. rewrite Hk. by eexists.
Qed.

(** X9.  A render that does not throw leaves the map as [submitSearch]
    needs it: when [add] has made the rows of a history whose first
    entries have loci with a first element, [submitSearch] on the map it
    leaves gets past its loop. *)
Theorem add_then_submitSearch m history rows :
  (add m history).2 = Some rows ->
  Forall resolvable (considered history) ->
  Forall (ready (add m history).1) (considered history) /\
  submitSearch (add m history).1 history <> TypeError.
Proof.
  intros Hadd Hres.
  assert (Forall (ready (add m history).1) (considered history)) as Hr.
  { rewrite add_rendered, rendered_considered in *.
    destruct (add_loop m (considered history) 0 []) as [m' rows'] eqn:E.
    simpl in *. subst rows'. apply add_loop_tracks in E.
    apply Forall_forall. intros l Hl. split.
    - by eapply Forall_forall in Hres.
    - by eapply Forall_forall in E. }
  split; [done | by apply submitSearch_ready_outcome].
Qed.

Lemma add_loop_again ls : forall m i acc m' rows,
  add_loop m ls i acc = (m', Some rows) ->
  forall m'' : gmap string (option Residue),
    (forall (k : string) (v : option Residue), m' !! k = Some v -> m'' !! k = Some v) ->
    add_loop m'' ls i acc = (m'', Some rows).
Proof.
  induction ls as [| l ls IH]; intros m i acc m' rows Hloop m'' Hsub; simpl in *.
  - by injection Hloop as _ <-.
  - destruct (add_step m l i) as [m1 [row |]] eqn:E; [| done].
    apply add_step_Some in E as (r & -> & Hr & _).
    pose proof (add_loop_keeps ls m1 (S i) (acc ++ [ {| row_key := entry_id (entry r);
      row_idx := i + 1; row_residue := r |} ]) _ _ Hr) as Hk.
    rewrite Hloop in Hk. simpl in Hk. apply Hsub in Hk.
    assert (add_step m'' l i = (m'', Some {| row_key := entry_id (entry r);
      row_idx := i + 1; row_residue := r |})) as ->.
    { unfold add_step. rewrite (proj2 (Map_has_true m'' l)) by (by eexists).
      unfold Map_get. by rewrite Hk. }
    by eapply IH.
Qed.

(** X10.  Rendering again changes nothing: after an [add] that made its
    rows, a second [add] over the same history leaves the map as it is
    and makes the same rows. *)
Theorem add_idempotent m history rows :
  (add m history).2 = Some rows ->
  add (add m history).1 history = ((add m history).1, Some rows).
Proof.
  intros Hadd. rewrite !add_rendered in *.
  destruct (add_loop m (rendered history) 0 []) as [m' rows'] eqn:E.
  simpl in *. subst rows'. by eapply add_loop_again.
Qed.

Lemma renderable_step m l i m1 row l' :
  add_step m l i = (m1, Some row) -> renderable m l' -> renderable m1 l'.
Proof.
  intros (r & _ & Hr & [[_ ->] | (Hnone & _ & ->)])%add_step_Some; [done |].
  unfold renderable, tracked, Map_get. rewrite Map_has_false.
  destruct (decide (entry_id l = entry_id l')) as [Heq | Hne].
  - intros _. left. rewrite <- Heq, lookup_insert_eq. by eexists.
  - rewrite Map_has_false, lookup_insert_ne by done. done.
Qed.

Lemma add_step_renderable m l i :
  renderable m l -> exists m1 row, add_step m l i = (m1, Some row) /\ row_idx row = S i.
Proof.
  unfold renderable, tracked, resolvable, add_step, Map_get.
  intros [[r Hr] | [Hh [loc Hloc]]].
  - destruct (m !! entry_id l) as [v |] eqn:E; [| done]. simpl in Hr. subst v.
    rewrite (proj2 (Map_has_true m l)) by (by eexists).
    eexists _, _. split; [done |]. simpl. lia.
  - rewrite Hh. unfold Residue_new. rewrite Hloc.
    eexists _, _. split; [done |]. simpl. lia.
Qed.

Lemma add_loop_renderable ls : forall m i acc,
  Forall (renderable m) ls ->
  exists m' rows,
    add_loop m ls i acc = (m', Some (acc ++ rows)) /\
    row_idx <$> rows = seq (S i) (length ls).
Proof.
  induction ls as [| l ls IH]; intros m i acc Hr; simpl.
  - exists m, []. by rewrite app_nil_r.
  - apply Forall_cons in Hr as [Hl Hls].
    destruct (add_step_renderable m l i Hl) as (m1 & row & E & Hidx). rewrite E.
    destruct (IH m1 (S i) (acc ++ [row])) as (m' & rows & -> & Hrows).
    { eapply Forall_impl; [exact Hls |]. intros l'. by eapply renderable_step. }
    exists m', (row :: rows). rewrite <- app_assoc. split; [done |].
    rewrite fmap_cons, Hidx, Hrows. done.
Qed.

Lemma add_loop_rows ls : forall m i acc m' rows,
  add_loop m ls i acc = (m', Some rows) ->
  exists rows',
    rows = acc ++ rows' /\
    Forall2 (fun l row =>
               Map_get m' l = Some (row_residue row) /\
               row_key row = entry_id (entry (row_residue row)) /\
               (forall r, Map_get m l = Some r -> row_residue row = r))
            ls rows' /\
    row_idx <$> rows' = seq (S i) (length ls).
Proof.
  induction ls as [| l ls IH]; intros m i acc m' rows Hloop; simpl in Hloop.
  - injection Hloop as <- <-. exists []. by rewrite app_nil_r.
  - destruct (add_step m l i) as [m1 [row |]] eqn:E; [| done].
    pose proof (fun k v => add_step_keeps m l i k v) as Hkeep. rewrite E in Hkeep.
    simpl in Hkeep.
    apply add_step_Some in E as (r & -> & Hr & Hcase).
    pose proof (add_loop_keeps ls m1 (S i) (acc ++ [ {| row_key := entry_id (entry r);
      row_idx := i + 1; row_residue := r |} ]) _ _ Hr) as Hk.
    rewrite Hloop in Hk. simpl in Hk.
    destruct (IH _ _ _ _ _ Hloop) as (rows' & -> & Hrows & Hidx).
    eexists (_ :: rows'). rewrite <- app_assoc. split; [done |]. split.
    + constructor.
      * simpl. split_and!; [unfold Map_get; by rewrite Hk | done |].
        intros r'. unfold Map_get.
        destruct Hcase as [[Hm _] | [Hm _]]; rewrite Hm; [congruence | done].
      * eapply Forall2_impl; [exact Hrows |]. intros l' row' (? & ? & Hold).
        split_and!; [done | done |]. intros r' Hr'. apply Hold.
        unfold Map_get in *. destruct (m !! entry_id l') as [v |] eqn:Em; [| done].
        by rewrite (Hkeep _ _ Em).
    + rewrite fmap_cons, Hidx. simpl. f_equal. lia.
Qed.

(** X11.  [add] makes its rows when the map holds a [Residue] for each
    entry it visits or the entry is no key and its loci have a first
    element.  There is one row for each of the first 10 entries, in the
    order of the history: row [k] shows the [Residue] that the map holds
    for entry [k] after the render, which is the one the map held before
    when it held one, under the id of the entry of that [Residue], and it
    has the number [k], counted from 1. *)
Theorem add_renders m history :
  Forall (renderable m) (rendered history) ->
  exists rows,
    (add m history).2 = Some rows /\
    Forall2 (fun l row =>
               Map_get (add m history).1 l = Some (row_residue row) /\
               row_key row = entry_id (entry (row_residue row)) /\
               (forall r, Map_get m l = Some r -> row_residue row = r))
            (rendered history) rows /\
    row_idx <$> rows = seq 1 (Nat.min (length history) 10).
Proof.
  intros Hr. rewrite add_rendered.
  destruct (add_loop_renderable (rendered history) m 0 [] Hr) as (m' & rows & E & _).
  rewrite E. simpl. exists rows. split; [done |].
  destruct (add_loop_rows _ _ _ _ _ _ E) as (rows' & Heq & Hrows & Hidx).
  simpl in Heq. subst rows'. split; [done |]. rewrite Hidx. f_equal.
  unfold rendered. rewrite length_take. lia.
Qed.

Lemma add_loop_undefined ls : forall m i acc l,
  l ∈ ls -> m !! entry_id l = Some None -> (add_loop m ls i acc).2 = None.
Proof.
  induction ls as [| l0 ls IH]; intros m i acc l Hl Hm; [by apply elem_of_nil in Hl |].
  simpl. destruct (add_step m l0 i) as [m1 [row |]] eqn:E; [| done].
  apply elem_of_cons in Hl as [-> | Hl].
  - apply add_step_Some in E as (r & _ & _ & [[? _] | (? & _)]); congruence.
  - apply (IH _ _ _ l Hl).
    pose proof (add_step_keeps m l0 i _ _ Hm) as Hk. by rewrite E in Hk.
Qed.

(** X12.  A key that holds [undefined] breaks the render: [add] throws
    when one of the entries it visits is such a key. *)
Theorem add_throws_on_undefined m history l :
  l ∈ rendered history ->
  m !! entry_id l = Some None ->
  (add m history).2 = None.
Proof. intros Hl Hm. rewrite add_rendered. by eapply add_loop_undefined. Qed.

End AddFacts.

(** ** More on [updateResidues] *)

Section UpdateResiduesMore.
Context `{H : Host}.
Implicit Types (m : gmap string (option Residue)).
Implicit Types (l : StructureSelectionHistoryEntry).
Implicit Types (ls history : list StructureSelectionHistoryEntry).

(** X13.  [updateResidues] makes the keys of the map the entries of the
    history: an entry is a key exactly when it is in the history, an entry
    of the history holds what the old map held for it, and the map holds
    nothing for an entry that is not in the history. *)
Theorem updateResidues_sync m history l :
  (Map_has (updateResidues m history) l = true <-> entry_id l ∈ entry_id <$> history) /\
  (l ∈ history -> Map_get (updateResidues m history) l = Map_get m l) /\
  (entry_id l ∉ entry_id <$> history -> Map_get (updateResidues m history) l = None).
Proof.
  split_and!.
  - apply updateResidues_keys.
  - apply updateResidues_keeps.
  - intros Hl. apply (updateResidues_drops m) in Hl. apply Map_has_false in Hl.
    unfold Map_get. by rewrite Hl.
Qed.

(** X14.  The new map has no key that holds [undefined] exactly when the
    old map held a [Residue] for every entry of the history. *)
Theorem updateResidues_defined_iff m history :
  (forall k : string, updateResidues m history !! k <> Some None) <->
  Forall (tracked m) history.
Proof.
  split.
  - intros Hdef. apply Forall_forall. intros l Hl.
    specialize (Hdef (entry_id l)). rewrite lookup_updateResidues in Hdef.
    rewrite decide_True in Hdef by (apply list_elem_of_fmap; eauto).
    unfold tracked, Map_get. destruct (m !! entry_id l) as [[r |] |]; simpl in *;
      [by eexists | done | done].
  - intros Htr k. rewrite lookup_updateResidues. case_decide as Hk; [| done].
    apply list_elem_of_fmap in Hk as (l & -> & Hl).
    eapply Forall_forall in Htr as [r Hr]; [| done].
    unfold Map_get in Hr. destruct (m !! entry_id l) as [v |]; simpl in *; congruence.
Qed.

(** X15.  Running [updateResidues] again over the same history changes
    nothing, and over the empty history it leaves the empty map. *)
Theorem updateResidues_idempotent m history :
  updateResidues (updateResidues m history) history = updateResidues m history /\
  updateResidues m [] = ∅.
Proof.
  split; [| done]. apply map_eq. intros k. rewrite !lookup_updateResidues.
  by case_decide.
Qed.

Lemma add_loop_all_keys ls : forall m i acc,
  Forall (fun l => Map_has m l = true) ls ->
  (add_loop m ls i acc).1 = m /\
  (is_Some (add_loop m ls i acc).2 <-> Forall (tracked m) ls).
Proof.
  induction ls as [| l ls IH]; intros m i acc Hkeys; simpl.
  - split; [done |]. split; [constructor | by eexists].
  - apply Forall_cons in Hkeys as [Hl Hls]. unfold add_step. rewrite Hl.
    destruct (Map_get m l) as [r |] eqn:E; simpl.
    + destruct (IH m (S i) (acc ++ [ {| row_key := entry_id (entry r);
        row_idx := i + 1; row_residue := r |} ]) Hls) as [-> Hiff].
      split; [done |]. rewrite Hiff, Forall_cons. unfold tracked at 2. rewrite E.
      split; [intros ?; split; [by eexists | done] | by intros [_ ?]].
    + split; [done |]. split; [by intros [? ?] |].
      intros [[r Hr] _]%Forall_cons. unfold Map_get in *. congruence.
Qed.

(** X16.  After [updateResidues] the render makes no [Residue]: every
    entry of the history is already a key, so [add] leaves the map as it
    is, and it makes its rows exactly when the old map held a [Residue]
    for each entry it visits. *)
Theorem updateResidues_then_add m history :
  (add (updateResidues m history) history).1 = updateResidues m history /\
  (is_Some (add (updateResidues m history) history).2 <->
   Forall (tracked m) (rendered history)).
Proof.
  rewrite add_rendered.
  assert (Forall (fun l => l ∈ history) (rendered history)) as Hsub.
  { apply Forall_forall. intros l Hl. unfold rendered in Hl.
    by eapply elem_of_take in Hl as (? & ?%list_elem_of_lookup_2 & _). }
  destruct (add_loop_all_keys (rendered history) (updateResidues m history) 0 [])
    as [Hmap Hiff].
  { eapply Forall_impl; [exact Hsub |]. intros l Hl. simpl.
    apply updateResidues_keys, list_elem_of_fmap. eauto. }
  split; [done |]. rewrite Hiff. split; intros Htr.
  - apply Forall_forall. intros l Hl.
    pose proof (proj1 (Forall_forall _ _) Htr l Hl) as Ht.
    pose proof (proj1 (Forall_forall _ _) Hsub l Hl) as Hin.
    unfold tracked in *. by rewrite <- (updateResidues_keeps m history l Hin).
  - apply Forall_forall. intros l Hl.
    pose proof (proj1 (Forall_forall _ _) Htr l Hl) as Ht.
    pose proof (proj1 (Forall_forall _ _) Hsub l Hl) as Hin.
    unfold tracked in *. by rewrite (updateResidues_keeps m history l Hin).
Qed.

End UpdateResiduesMore.

(** ** More on the exchange set of a [Residue] *)

Section ToggleMore.
Context `{H : Host}.

Lemma has_ext (s1 s2 : JSSet.t) (w : string) :
  (w ∈ s1 <-> w ∈ s2) -> JSSet.has s1 w = JSSet.has s2 w.
Proof.
  intros Hw. destruct (JSSet.has s2 w) eqn:E.
  - apply JSSetFacts.has_true, Hw. by apply JSSetFacts.has_true.
  - apply JSSetFacts.has_false. rewrite Hw. by apply JSSetFacts.has_false.
Qed.

Lemma elem_of_toggle (r : Residue) (val w : string) :
  w ∈ res_exchanges (toggleExchange r val) <->
  (w <> val /\ w ∈ res_exchanges r) \/ (w = val /\ w ∉ res_exchanges r).
Proof.
  unfold toggleExchange, hasExchange.
  destruct (JSSet.has (res_exchanges r) val) eqn:E; simpl.
  - apply JSSetFacts.has_true in E. rewrite JSSetFacts.elem_of_delete.
    split; [tauto |]. intros [[? ?] | [-> ?]]; [tauto | done].
  - apply JSSetFacts.has_false in E. rewrite JSSetFacts.elem_of_add.
    destruct (decide (w = val)) as [-> | ?]; tauto.
Qed.

Lemma hasExchange_toggle (r : Residue) (val w : string) :
  hasExchange (toggleExchange r val) w
  = xorb (hasExchange r w) (String.eqb val w).
Proof.
  unfold hasExchange.
  destruct (JSSet.has (res_exchanges r) w) eqn:E;
    destruct (String.eqb_spec val w) as [-> | Hne]; simpl.
  - apply JSSetFacts.has_false. rewrite elem_of_toggle.
    apply JSSetFacts.has_true in E. tauto.
  - apply JSSetFacts.has_true. rewrite elem_of_toggle.
    apply JSSetFacts.has_true in E. left. split; [congruence | done].
  - apply JSSetFacts.has_true. rewrite elem_of_toggle.
    apply JSSetFacts.has_false in E. tauto.
  - apply JSSetFacts.has_false. rewrite elem_of_toggle.
    apply JSSetFacts.has_false in E. intros [[? ?] | [? ?]]; congruence.
Qed.

Lemma NoDup_delete (s : JSSet.t) (v : string) : NoDup s -> NoDup (JSSet.delete s v).
Proof.
  induction 1 as [| x s Hx Hs IH]; [constructor |].
  unfold JSSet.delete. simpl. destruct (negb (v =? x)%string); [| done].
  constructor; [| done]. fold (JSSet.delete s v).
  rewrite JSSetFacts.elem_of_delete. tauto.
Qed.

Lemma length_delete (s : JSSet.t) (v : string) :
  NoDup s -> v ∈ s -> S (length (JSSet.delete s v)) = length s.
Proof.
  unfold JSSet.delete. induction 1 as [| x s Hx Hs IH]; [by intros ?%elem_of_nil |].
  intros Hv. simpl. destruct (String.eqb_spec v x) as [-> | Hne]; simpl.
  - f_equal. fold (JSSet.delete s x). by rewrite JSSetFacts.delete_absent.
  - f_equal. apply IH. apply elem_of_cons in Hv as [? | ?]; [congruence | done].
Qed.

Lemma NoDup_toggle (r : Residue) (val : string) :
  NoDup (res_exchanges r) -> NoDup (res_exchanges (toggleExchange r val)).
Proof.
  intros Hs. unfold toggleExchange. destruct (hasExchange r val); simpl.
  - by apply NoDup_delete.
  - by apply JSSetFacts.NoDup_add.
Qed.

(** X17.  On an exchange set without duplicates [toggleExchange] changes
    the size by one: one less when the set had the code, one more when it
    lacked it; the set stays without duplicates and the entry of the
    residue is kept. *)
Theorem toggleExchange_size (r : Residue) (val : string) :
  NoDup (res_exchanges r) ->
  NoDup (res_exchanges (toggleExchange r val)) /\
  entry (toggleExchange r val) = entry r /\
  (if hasExchange r val
   then S (JSSet.size (res_exchanges (toggleExchange r val))) = JSSet.size (res_exchanges r)
   else JSSet.size (res_exchanges (toggleExchange r val)) = S (JSSet.size (res_exchanges r))).
Proof.
  intros Hs. split; [by apply NoDup_toggle |].
  unfold toggleExchange, hasExchange, JSSet.size.
  destruct (JSSet.has (res_exchanges r) val) eqn:E; simpl; (split; [done |]).
  - apply length_delete; [done | by apply JSSetFacts.has_true].
  - unfold JSSet.add. rewrite E, length_app. simpl. lia.
Qed.

(** X18.  After any sequence of [toggleExchange] calls a code is in the
    exchange set exactly when it was in it and was toggled an even number
    of times, or was not in it and was toggled an odd number of times. *)
Theorem toggleExchange_parity (r : Residue) (vals : list string) (w : string) :
  hasExchange (foldl toggleExchange r vals) w
  = xorb (hasExchange r w) (Nat.odd (count_occ String.string_dec vals w)).
Proof.
  revert r. induction vals as [| v vals IH]; intros r; simpl.
  - by destruct (hasExchange r w).
  - rewrite IH, hasExchange_toggle.
    destruct (String.string_dec v w) as [-> | Hne].
    + rewrite String.eqb_refl, Nat.odd_succ, <- Nat.negb_odd.
      by destruct (hasExchange r w), (Nat.odd _).
    + by rewrite (proj2 (String.eqb_neq v w) Hne), xorb_false_r.
Qed.

(** X19.  The exchange set of a [Residue] that was made by the
    constructor and then toggled any number of times has no duplicates,
    and the residue is still that of its entry. *)
Theorem Residue_exchanges_NoDup (l : StructureSelectionHistoryEntry) (r : Residue)
    (vals : list string) :
  Residue_new l = Some r ->
  NoDup (res_exchanges (foldl toggleExchange r vals)) /\
  entry (foldl toggleExchange r vals) = l.
Proof.
  intros Hnew.
  assert (NoDup (res_exchanges r) /\ entry r = l) as Hinit.
  { unfold Residue_new in Hnew. destruct (Location_set (entry_loci l)); [| done].
    injection Hnew as <-. simpl. split; [| done]. apply NoDup_singleton. }
  clear Hnew. revert r Hinit. induction vals as [| v vals IH]; intros r [Hs He]; [done |].
  simpl. apply IH. split; [by apply NoDup_toggle |].
  unfold toggleExchange. by destruct (hasExchange r v).
Qed.

End ToggleMore.

(** * Properties of the validation report controls *)

Module ValidationFacts.
Import Validation.

Lemma ascii_upper_digit (c : ascii) : is_digit (ascii_upper c) = is_digit c.
Proof. destruct c as [[] [] [] [] [] [] [] []]; reflexivity. Qed.

Lemma ascii_upper_digit_1_9 (c : ascii) : is_digit_1_9 (ascii_upper c) = is_digit_1_9 c.
Proof. destruct c as [[] [] [] [] [] [] [] []]; reflexivity. Qed.

Lemma ascii_upper_alnum (c : ascii) : is_alnum_i (ascii_upper c) = is_alnum_i c.
Proof. destruct c as [[] [] [] [] [] [] [] []]; reflexivity. Qed.

Lemma ascii_upper_letter (capital : nat) (c : ascii) :
  (65 <= capital <= 90)%nat ->
  is_letter_i capital (ascii_upper c) = is_letter_i capital c.
Proof.
  intros Hcap. unfold is_letter_i, ascii_upper, between.
  assert (code c < 256)%nat as Hlt by apply nat_ascii_bounded.
  destruct (Nat.leb_spec 97 (code c)); simpl;
    [destruct (Nat.leb_spec (code c) 122); simpl |]; [| done | done].
  assert (code (ascii_of_nat (code c - 32)) = (code c - 32)%nat) as ->.
  { unfold code. apply nat_ascii_embedding. unfold code in *. lia. }
  destruct (Nat.eqb_spec (code c - 32) capital), (Nat.eqb_spec (code c - 32) (capital + 32)),
    (Nat.eqb_spec (code c) capital), (Nat.eqb_spec (code c) (capital + 32)); simpl;
    try reflexivity; lia.
Qed.

Lemma ascii_upper_underscore (c : ascii) :
  (code (ascii_upper c) =? 95)%nat = (code c =? 95)%nat.
Proof. destruct c as [[] [] [] [] [] [] [] []]; reflexivity. Qed.

Lemma match_pdb_id_upper (s : string) :
  match_pdb_id (string_upper s) = match_pdb_id s.
Proof.
  destruct s as [| c0 [| c1 [| c2 [| c3 [| c4 s]]]]]; simpl; try done.
  by rewrite ascii_upper_digit_1_9, !ascii_upper_alnum.
Qed.

Lemma match_extended_pdb_id_upper (s : string) :
  match_extended_pdb_id (string_upper s) = match_extended_pdb_id s.
Proof.
  destruct s as [| p [| d [| b [| u [| n0 [| n1 [| n2 [| n3 rest]]]]]]]];
    simpl; try done.
  fold (string_upper rest). rewrite match_pdb_id_upper.
  rewrite !ascii_upper_letter by lia.
  by rewrite ascii_upper_underscore, !ascii_upper_digit.
Qed.

Lemma match_pdb_id_length (s : string) :
  match_pdb_id s = true -> String.length s = 4%nat.
Proof. by destruct s as [| c0 [| c1 [| c2 [| c3 [| c4 s]]]]]. Qed.

(** X20.  A model counts as from the PDB archive only if its source data
    are mmCIF and its entry id is a classic id of four characters, a digit
    from 1 to 9 and three letters or digits, alone or after a prefix of
    eight characters; so the id has 4 or 12 characters. *)
Theorem isFromPdbArchive_shape (model : Model) :
  isFromPdbArchive model = true ->
  sourceData_is_mmcif model = true /\
  exists prefix id : string,
    entryId model = (prefix ++ id)%string /\
    match_pdb_id id = true /\
    (prefix = ""%string \/ String.length prefix = 8%nat) /\
    (String.length (entryId model) = 4%nat \/ String.length (entryId model) = 12%nat).
Proof.
  unfold isFromPdbArchive. destruct (sourceData_is_mmcif model); simpl; [| done].
  intros [Hm | Hm]%orb_true_iff; (split; [done |]).
  - exists ""%string, (entryId model). simpl.
    split_and!; [done | done | by left |]. left. by apply match_pdb_id_length.
  - destruct (entryId model)
      as [| p [| d [| b [| u [| n0 [| n1 [| n2 [| n3 rest]]]]]]]]; simpl in Hm; try done.
    apply andb_true_iff in Hm as [_ Hm].
    exists (String p (String d (String b (String u
             (String n0 (String n1 (String n2 (String n3 ""))))))))%string, rest.
    split_and!; [done | done | by right |]. right.
    simpl. by rewrite (match_pdb_id_length _ Hm).
Qed.

(** X21.  The test of the entry id does not look at the case of
    letters: the id in capitals is accepted exactly when the id is. *)
Theorem isFromPdbArchive_case_insensitive (model : Model) :
  isFromPdbArchive {| sourceData_is_mmcif := sourceData_is_mmcif model;
                      entryId := string_upper (entryId model) |}
  = isFromPdbArchive model.
Proof.
  unfold isFromPdbArchive. simpl.
  by rewrite match_pdb_id_upper, match_extended_pdb_id_upper.
Qed.

Section Controls.
Context (ValidationReport_isApplicable : Model -> bool).
Context (preset_applies : Cell -> bool).

(** X22.  When the controls can be enabled there is one structure
    selected, with one model, to which the validation report applies;
    [noValidationReport] and [actions] then do not throw, and no report is
    offered exactly when that model is not from the PDB archive. *)
Theorem canEnable_noValidationReport (structures : list Cell) :
  canEnable ValidationReport_isApplicable structures = true ->
  exists model,
    structures = [ {| obj := Some {| models := [model] |} |} ] /\
    ValidationReport_isApplicable model = true /\
    noValidationReport structures = Some (negb (isFromPdbArchive model)) /\
    forall st, is_Some (actions st structures).
Proof.
  unfold canEnable, noValidationReport, actions, pivot.
  destruct structures as [| [[[[| model [| model' ms]]] |]] [| cell' cells]];
    simpl; try done.
  intros Happ. exists model. split_and!; [done .. |]. intros st. by eexists.
Qed.

Lemma actions_failed (st : State) (structures : list Cell) (item : ActionItem) :
  actions st structures = Some item ->
  JSSet.has (errorStates st) ValidationReportTag = true ->
  label item = "Failed to Obtain Validation Report"%string /\ disabled item = true.
Proof.
  unfold actions. destruct (noValidationReport structures) as [noReport |]; [| done].
  intros [= <-] ->. simpl. by rewrite orb_true_r.
Qed.

(** X23.  The menu item is enabled exactly when it is labelled as the
    validation report; a recorded failure takes the label, also when no
    report is available. *)
Theorem actions_enabled_iff (st : State) (structures : list Cell) (item : ActionItem) :
  actions st structures = Some item ->
  (disabled item = false <-> label item = "RCSB PDB Validation Report"%string) /\
  (JSSet.has (errorStates st) ValidationReportTag = true ->
   label item = "Failed to Obtain Validation Report"%string /\ disabled item = true).
Proof.
  unfold actions. destruct (noValidationReport structures) as [noReport |]; [| done].
  intros [= <-]. simpl.
  destruct (JSSet.has (errorStates st) ValidationReportTag), noReport; simpl;
    split; try split; try done; intros _; by rewrite ?orb_true_r.
Qed.

(** X24.  A request that fails, be it that the preset does not apply or
    that no structure is selected, is recorded, a further failing request
    changes nothing, and the next change of the selection clears the
    record.  While a structure is selected the menu item is there after
    the failure, disabled and with the failure label; with no structure
    selected [actions] throws, so there is no item. *)
Theorem requestValidationReportPreset_failure (st : State) (structures : list Cell) :
  match pivot structures with
  | Some cell => preset_applies cell
  | None => false
  end = false ->
  let st' := requestValidationReportPreset preset_applies st structures in
  JSSet.has (errorStates st') ValidationReportTag = true /\
  requestValidationReportPreset preset_applies st' structures = st' /\
  match pivot structures with
  | Some _ =>
      exists item,
        actions st' structures = Some item /\
        label item = "Failed to Obtain Validation Report"%string /\
        disabled item = true
  | None => actions st' structures = None
  end /\
  (forall structures' descr,
     JSSet.has (errorStates (selectionChanged ValidationReport_isApplicable
                               st' structures' descr)) ValidationReportTag = false).
Proof.
  intros Hfail. cbv zeta.
  assert (JSSet.has (JSSet.add (errorStates st) ValidationReportTag) ValidationReportTag
          = true) as Hhas.
  { apply JSSetFacts.has_true, JSSetFacts.elem_of_add. by right. }
  assert (requestValidationReportPreset preset_applies st structures
          = {| isCollapsed := isCollapsed st;
               isHidden := isHidden st;
               errorStates := JSSet.add (errorStates st) ValidationReportTag;
               description := description st |}) as ->.
  { unfold requestValidationReportPreset. by rewrite Hfail. }
  split; [exact Hhas |]. split; [| split].
  - unfold requestValidationReportPreset. rewrite Hfail. simpl.
    f_equal. unfold JSSet.add at 1. by rewrite Hhas.
  - unfold actions, noValidationReport.
    destruct (pivot structures) as [cell |]; [| done].
    eexists. split; [done |]. simpl. rewrite Hhas. by rewrite orb_true_r.
  - done.
Qed.

End Controls.

End ValidationFacts.

(** * Properties of the confidence scores *)

Module AfConfidenceFacts.
Import AfConfidence.

Lemma gt_Fin (q : Q) (z : Z) :
  JSNumber.gt (JSNumber.Fin q) (JSNumber.of_Z z) = true <-> (inject_Z z < q)%Q.
Proof.
  simpl. rewrite negb_true_iff. destruct (Qle_bool q (inject_Z z)) eqn:E.
  - apply Qle_bool_iff in E. split; [done |]. intros ?%Qlt_not_le. done.
  - split; [intros _ | done]. apply Qnot_le_lt. rewrite <- Qle_bool_iff. congruence.
Qed.

Lemma le_Fin (q : Q) (z : Z) :
  JSNumber.le (JSNumber.Fin q) (JSNumber.of_Z z) = true <-> (q <= inject_Z z)%Q.
Proof. simpl. apply Qle_bool_iff. Qed.

(** X25.  The categories are bands of the score: up to 50 very low, above
    50 up to 70 low, above 70 up to 90 confident, above 90 very high; a
    score that is not a number is very low. *)
Theorem confidencyCategory_bands (q : Q) :
  (confidencyCategory (JSNumber.Fin q) = "Very low"%string <-> (q <= 50)%Q) /\
  (confidencyCategory (JSNumber.Fin q) = "Low"%string <-> (50 < q /\ q <= 70)%Q) /\
  (confidencyCategory (JSNumber.Fin q) = "Confident"%string <-> (70 < q /\ q <= 90)%Q) /\
  (confidencyCategory (JSNumber.Fin q) = "Very high"%string <-> (90 < q)%Q) /\
  confidencyCategory JSNumber.NaN = "Very low"%string.
Proof.
  unfold confidencyCategory.
  assert (forall z : Z, JSNumber.le (JSNumber.Fin q) (JSNumber.of_Z z)
                        = negb (JSNumber.gt (JSNumber.Fin q) (JSNumber.of_Z z))) as Hle.
  { intros z. simpl. by rewrite negb_involutive. }
  rewrite !Hle.
  pose proof (gt_Fin q 50) as G50. pose proof (gt_Fin q 70) as G70.
  pose proof (gt_Fin q 90) as G90.
  change (inject_Z 50) with (50 # 1)%Q in *.
  change (inject_Z 70) with (70 # 1)%Q in *.
  change (inject_Z 90) with (90 # 1)%Q in *.
  assert (forall (b : bool) (P : Prop), (b = true <-> P) -> (b = true /\ P) \/ (b = false /\ ~ P))
    as Hcase.
  { intros [] P HP; [left | right]; split; try done; [by apply HP |].
    intros HPp. by apply HP in HPp. }
  destruct (Hcase _ _ G50) as [[-> H50] | [-> H50]];
  destruct (Hcase _ _ G70) as [[-> H70] | [-> H70]];
  destruct (Hcase _ _ G90) as [[-> H90] | [-> H90]];
  clear G50 G70 G90 Hcase Hle; simpl;
  (split_and!; [split; [try discriminate; try (intros _) | intros; try reflexivity] ..
               | reflexivity]);
  try (exfalso; lra); try lra.
Qed.

Section ScoreMap.
Context (findResidue : string -> Z -> Z).

Lemma category_foldl (rows : list Row) : forall acc : ScoreMap,
  category (foldl (score_step findResidue) acc rows)
  = foldl JSSet.add (category acc) (row_category <$> rows).
Proof.
  induction rows as [| row rows IH]; intros acc; [done |]. simpl. by rewrite IH.
Qed.

Lemma categories_known (c : string) :
  (exists s, confidencyCategory s = c) ->
  c ∈ ["Low"%string; "Confident"%string; "Very high"%string; "Very low"%string].
Proof.
  intros [s <-]. unfold confidencyCategory.
  repeat case_match; set_solver.
Qed.

(** X26.  The categories of a score map are those of its rows, each
    once: a category is listed exactly when a row has a score of it, no
    category is listed twice, and there are at most four. *)
Theorem createScoreMapFromCif_categories (rows : list Row) :
  NoDup (category (createScoreMapFromCif findResidue rows)) /\
  (forall c : string,
     c ∈ category (createScoreMapFromCif findResidue rows) <->
     exists row, row ∈ rows /\ confidencyCategory (row_metric_value row) = c) /\
  (length (category (createScoreMapFromCif findResidue rows)) <= 4)%nat.
Proof.
  unfold createScoreMapFromCif. rewrite category_foldl. simpl.
  assert (forall c : string,
    c ∈ foldl JSSet.add [] (row_category <$> rows) <->
    exists row, row ∈ rows /\ confidencyCategory (row_metric_value row) = c) as Hin.
  { intros c. rewrite JSSetFacts.elem_of_foldl_add, list_elem_of_fmap, elem_of_nil.
    split.
    - intros [[] | (row & -> & Hrow)]. eauto.
    - intros (row & Hrow & <-). right. eauto. }
  assert (NoDup (foldl JSSet.add [] (row_category <$> rows))) as Hnd.
  { apply JSSetFacts.NoDup_foldl_add. constructor. }
  split_and!; [done | done |].
  change 4%nat
    with (length ["Low"%string; "Confident"%string; "Very high"%string; "Very low"%string]).
  apply submseteq_length, NoDup_submseteq; [done |].
  intros c (row & _ & <-)%Hin. apply categories_known. eauto.
Qed.

(** X27.  The score map holds for a residue index the score of the last
    row that [findResidue] sends to it, with the category of that score,
    and nothing for an index that no row is sent to. *)
Theorem createScoreMapFromCif_score (rows : list Row) (idx : Z) :
  score (createScoreMapFromCif findResidue rows) !! idx
  = (fun row => (row_metric_value row, confidencyCategory (row_metric_value row)))
      <$> last (filter (fun row => row_index findResidue row = idx) rows).
Proof.
  unfold createScoreMapFromCif.
  induction rows as [| row rows IH] using rev_ind; [done |].
  rewrite foldl_app, filter_app, filter_cons, filter_nil.
  simpl foldl. unfold score_step at 1. simpl score.
  fold (row_index findResidue row).
  destruct (decide (row_index findResidue row = idx)) as [Heq | Hne].
  - rewrite Heq, lookup_insert_eq, last_snoc. done.
  - rewrite lookup_insert_ne by done. rewrite app_nil_r. done.
Qed.

End ScoreMap.

End AfConfidenceFacts.

(** * Properties of the general settings *)

Module GeneralSettingsFacts.
Import GeneralSettings.

Section Props.
Context {Color TrackballRest RendererRest PostprocessingRest : Type}.

Local Abbreviation Props :=
  (@Canvas3DProps Color TrackballRest RendererRest PostprocessingRest).
Local Abbreviation Change :=
  (@GeneralSettings.Change Color).

(** X28.  A render style that is set is the one that is read back: for
    each of the four styles [setSettings] dispatches a renderer and a
    postprocessing from which [values] tells that style, and it changes
    nothing else that [values] reads nor the other parts of the props. *)
Theorem setSettings_renderStyle_round_trip (props : Props) (style : string) :
  style ∈ ["toon"%string; "matte"%string; "glossy"%string; "metallic"%string] ->
  exists settings,
    setSettings props (RenderStyle style) = Some settings /\
    v_renderStyle (values (settled props settings)) = style /\
    v_spin (values (settled props settings)) = v_spin (values props) /\
    v_backgroundColor (values (settled props settings)) = v_backgroundColor (values props) /\
    v_occlusion (values (settled props settings)) = v_occlusion (values props) /\
    trackball (settled props settings) = trackball props /\
    renderer_rest (renderer (settled props settings)) = renderer_rest (renderer props) /\
    postprocessing_rest (postprocessing (settled props settings))
      = postprocessing_rest (postprocessing props).
Proof.
  intros Hstyle.
  repeat (apply elem_of_cons in Hstyle as [-> | Hstyle]);
    [| | | | by apply elem_of_nil in Hstyle];
    (eexists; split; [reflexivity |]); split_and!; reflexivity.
Qed.

(** X29.  [setSettings] dispatches nothing exactly for a parameter it does
    not know and for a render style that is none of the four. *)
Theorem setSettings_nothing_dispatched (props : Props) (p : Change) :
  setSettings props p = None <->
  (exists name other, p = OtherParam name other) \/
  (exists style, p = RenderStyle style /\
     style ∉ ["toon"%string; "matte"%string; "glossy"%string; "metallic"%string]).
Proof.
  split.
  - destruct p as [b | c | style | b | name other]; simpl; try done; [| by eauto].
    intros Hnone. right. exists style. split; [done |].
    intros Hin. repeat (apply elem_of_cons in Hin as [-> | Hin]);
      [done .. | by apply elem_of_nil in Hin].
  - intros [(name & other & ->) | (style & -> & Hstyle)]; [done |]. simpl.
    destruct (String.eqb_spec style "toon") as [-> | _]; [set_solver |].
    destruct (String.eqb_spec style "matte") as [-> | _]; [set_solver |].
    destruct (String.eqb_spec style "glossy") as [-> | _]; [set_solver |].
    destruct (String.eqb_spec style "metallic") as [-> | _]; [set_solver | done].
Qed.

(** X30.  Spin, background colour and occlusion that are set are read
    back, and setting one of them leaves the others and the render style
    that [values] tells as they were. *)
Theorem setSettings_value_round_trip (props : Props) :
  (forall b, exists settings,
     setSettings props (Spin b) = Some settings /\
     values (settled props settings)
     = {| v_spin := b;
          v_backgroundColor := v_backgroundColor (values props);
          v_renderStyle := v_renderStyle (values props);
          v_occlusion := v_occlusion (values props) |}) /\
  (forall c, exists settings,
     setSettings props (BackgroundColor c) = Some settings /\
     values (settled props settings)
     = {| v_spin := v_spin (values props);
          v_backgroundColor := c;
          v_renderStyle := v_renderStyle (values props);
          v_occlusion := v_occlusion (values props) |}) /\
  (forall b, exists settings,
     setSettings props (Occlusion b) = Some settings /\
     values (settled props settings)
     = {| v_spin := v_spin (values props);
          v_backgroundColor := v_backgroundColor (values props);
          v_renderStyle := v_renderStyle (values props);
          v_occlusion := b |}).
Proof.
  split_and!; intros x; eexists; (split; [reflexivity |]); reflexivity.
Qed.

End Props.

End GeneralSettingsFacts.

(** * The further properties on concrete inputs *)

Lemma resolvableb_resolvable `{H : Host} (ls : list StructureSelectionHistoryEntry) :
  forallb resolvableb ls = true -> Forall resolvable ls.
Proof.
  rewrite forallb_forall, Forall_forall. intros Hb l Hl.
  specialize (Hb l (proj1 (list_elem_of_In _ _) Hl)).
  unfold resolvableb in Hb. unfold resolvable.
  destruct (Location_set (entry_loci l)); [by eexists | done].
Qed.

Lemma renderableb_renderable `{H : Host} (m : gmap string (option Residue))
    (ls : list StructureSelectionHistoryEntry) :
  forallb (renderableb m) ls = true -> Forall (renderable m) ls.
Proof.
  rewrite forallb_forall, Forall_forall. intros Hb l Hl.
  specialize (Hb l (proj1 (list_elem_of_In _ _) Hl)).
  unfold renderableb, resolvableb in Hb. unfold renderable, tracked, resolvable.
  destruct (Map_get m l); [left; by eexists | right].
  apply andb_true_iff in Hb as [Hh Hr]. apply negb_true_iff in Hh.
  destruct (Location_set (entry_loci l)); [| done]. split; [done | by eexists].
Qed.

Lemma submitSearch_query_shape_witness :
  submitSearch demo_map_toggled (demo_history 3) = Opened demo_query_toggled /\
  q_type demo_query_toggled = "terminal"%string /\
  service demo_query_toggled = "strucmotif"%string /\
  score_cutoff (parameters demo_query_toggled) = 0 /\
  data (value (parameters demo_query_toggled)) = entry_model <$> head (demo_history 3) /\
  length (residue_ids (value (parameters demo_query_toggled)))
    = length (considered (demo_history 3)).
Proof.
  assert (submitSearch demo_map_toggled (demo_history 3) = Opened demo_query_toggled)
    as H1 by (vm_compute; reflexivity).
  exact (conj H1 (submitSearch_query_shape _ _ _ H1)).
Defined.

Lemma submitSearch_exchanges_consistent_witness :
  submitSearch demo_map_toggled (demo_history 3) = Opened demo_query_toggled /\
  Forall (fun ex => residue_id ex ∈ residue_ids (value (parameters demo_query_toggled)) /\
                    allowed ex <> [])
         (exchanges (parameters demo_query_toggled)) /\
  (length (exchanges (parameters demo_query_toggled))
   <= length (residue_ids (value (parameters demo_query_toggled))))%nat.
Proof.
  assert (submitSearch demo_map_toggled (demo_history 3) = Opened demo_query_toggled)
    as H1 by (vm_compute; reflexivity).
  exact (conj H1 (submitSearch_exchanges_consistent _ _ _ H1)).
Defined.

Lemma sortResidueIds_consistent_witness :
  let a := {| rs_label_asym_id := "A"; rs_struct_oper_id := "1"; rs_label_seq_id := 5 |} in
  let b := {| rs_label_asym_id := "B"; rs_struct_oper_id := "1"; rs_label_seq_id := 1 |} in
  (@sortResidueIds demoHost a b = 0 <-> a = b) /\
  (@sortResidueIds demoHost a b < 0 <-> 0 < @sortResidueIds demoHost b a).
Proof.
  exact (@sortResidueIds_consistent demoHost demoHost_collation _ _).
Defined.

Lemma submitSearch_pick_order_witness :
  demo_history 3 ≡ₚ reverse (demo_history 3) /\
  (length (demo_history 3) <= MAX_MOTIF_SIZE)%nat /\
  submitSearch demo_map_toggled (demo_history 3) = Opened demo_query_toggled /\
  exists q2,
    submitSearch demo_map_toggled (reverse (demo_history 3)) = Opened q2 /\
    residue_ids (value (parameters q2))
      = residue_ids (value (parameters demo_query_toggled)) /\
    data (value (parameters q2)) = data (value (parameters demo_query_toggled)).
Proof.
  assert (demo_history 3 ≡ₚ reverse (demo_history 3)) as H1
    by (symmetry; apply reverse_Permutation).
  assert (length (demo_history 3) <= MAX_MOTIF_SIZE)%nat as H2 by (vm_compute; lia).
  assert (submitSearch demo_map_toggled (demo_history 3) = Opened demo_query_toggled)
    as H3 by (vm_compute; reflexivity).
  exact (conj H1 (conj H2 (conj H3
    (@submitSearch_pick_order demoHost demoHost_collation _ _ _ _ H1 H2 H3)))).
Defined.

Lemma add_then_submitSearch_witness :
  (@add demoHost ∅ (demo_history 3)).2
    = Some (default [] (@add demoHost ∅ (demo_history 3)).2) /\
  Forall resolvable (considered (demo_history 3)) /\
  Forall (ready (@add demoHost ∅ (demo_history 3)).1) (considered (demo_history 3)) /\
  submitSearch (@add demoHost ∅ (demo_history 3)).1 (demo_history 3) <> TypeError.
Proof.
  assert ((@add demoHost ∅ (demo_history 3)).2
          = Some (default [] (@add demoHost ∅ (demo_history 3)).2)) as H1
    by (vm_compute; reflexivity).
  assert (Forall resolvable (considered (demo_history 3))) as H2
    by (apply resolvableb_resolvable; vm_compute; reflexivity).
  exact (conj H1 (conj H2 (add_then_submitSearch _ _ _ H1 H2))).
Defined.

Lemma add_idempotent_witness :
  (@add demoHost ∅ (demo_history 3)).2
    = Some (default [] (@add demoHost ∅ (demo_history 3)).2) /\
  add (@add demoHost ∅ (demo_history 3)).1 (demo_history 3)
    = ((@add demoHost ∅ (demo_history 3)).1,
       Some (default [] (@add demoHost ∅ (demo_history 3)).2)).
Proof.
  assert ((@add demoHost ∅ (demo_history 3)).2
          = Some (default [] (@add demoHost ∅ (demo_history 3)).2)) as H1
    by (vm_compute; reflexivity).
  exact (conj H1 (add_idempotent _ _ _ H1)).
Defined.

Lemma add_renders_witness :
  Forall (@renderable demoHost ∅) (rendered (demo_history 11)) /\
  exists rows,
    (@add demoHost ∅ (demo_history 11)).2 = Some rows /\
    Forall2 (fun l row =>
               Map_get (@add demoHost ∅ (demo_history 11)).1 l = Some (row_residue row) /\
               row_key row = entry_id (entry (row_residue row)) /\
               (forall r, Map_get (∅ : gmap string (option (@Residue demoHost))) l = Some r ->
                          row_residue row = r))
            (rendered (demo_history 11)) rows /\
    row_idx <$> rows = seq 1 (Nat.min (length (demo_history 11)) 10).
Proof.
  assert (Forall (@renderable demoHost ∅) (rendered (demo_history 11))) as H1
    by (apply renderableb_renderable; vm_compute; reflexivity).
  exact (conj H1 (add_renders _ _ H1)).
Defined.

Lemma add_throws_on_undefined_witness :
  let history := tail (demo_history 11) in
  let m := updateResidues (demo_map (demo_history 11)) history in
  demo_entry demo_1abc 10 ∈ rendered history /\
  m !! entry_id (demo_entry demo_1abc 10) = Some None /\
  (add m history).2 = None.
Proof.
  cbv zeta.
  assert (demo_entry demo_1abc 10 ∈ rendered (tail (demo_history 11))) as H1
    by (apply (list_elem_of_lookup_2 _ 9%nat); vm_compute; reflexivity).
  assert (updateResidues (demo_map (demo_history 11)) (tail (demo_history 11))
            !! entry_id (demo_entry demo_1abc 10) = Some None) as H2
    by (vm_compute; reflexivity).
  exact (conj H1 (conj H2 (add_throws_on_undefined _ _ _ H1 H2))).
Defined.

Lemma toggleExchange_size_witness :
  let r := {| entry := demo_entry demo_1abc 0; res_exchanges := ["ALA"%string] |} in
  NoDup (res_exchanges r) /\
  NoDup (res_exchanges (toggleExchange r "GLY")) /\
  entry (toggleExchange r "GLY") = entry r /\
  (if hasExchange r "GLY"
   then S (JSSet.size (res_exchanges (toggleExchange r "GLY"))) = JSSet.size (res_exchanges r)
   else JSSet.size (res_exchanges (toggleExchange r "GLY")) = S (JSSet.size (res_exchanges r))).
Proof.
  cbv zeta.
  assert (NoDup (res_exchanges
            {| entry := demo_entry demo_1abc 0; res_exchanges := ["ALA"%string] |})) as H1
    by apply NoDup_singleton.
  exact (conj H1 (toggleExchange_size _ "GLY" H1)).
Defined.

Lemma Residue_exchanges_NoDup_witness :
  let l := demo_entry demo_1abc 0 in
  let r := {| entry := l; res_exchanges := ["ALA"%string] |} in
  let vals := ["GLY"%string; "ALA"%string; "GLY"%string] in
  Residue_new l = Some r /\
  NoDup (res_exchanges (foldl toggleExchange r vals)) /\
  entry (foldl toggleExchange r vals) = l.
Proof.
  cbv zeta.
  assert (Residue_new (demo_entry demo_1abc 0)
          = Some {| entry := demo_entry demo_1abc 0; res_exchanges := ["ALA"%string] |})
    as H1 by reflexivity.
  exact (conj H1 (Residue_exchanges_NoDup _ _ _ H1)).
Defined.

Lemma isFromPdbArchive_shape_witness :
  Validation.isFromPdbArchive demo_model = true /\
  Validation.sourceData_is_mmcif demo_model = true /\
  exists prefix id : string,
    Validation.entryId demo_model = (prefix ++ id)%string /\
    Validation.match_pdb_id id = true /\
    (prefix = ""%string \/ String.length prefix = 8%nat) /\
    (String.length (Validation.entryId demo_model) = 4%nat \/
     String.length (Validation.entryId demo_model) = 12%nat).
Proof.
  assert (Validation.isFromPdbArchive demo_model = true) as H1 by reflexivity.
  exact (conj H1 (ValidationFacts.isFromPdbArchive_shape _ H1)).
Defined.

Lemma canEnable_noValidationReport_witness :
  Validation.canEnable (fun _ => true) demo_cells = true /\
  exists model,
    demo_cells = [ {| Validation.obj := Some {| Validation.models := [model] |} |} ] /\
    (fun _ : Validation.Model => true) model = true /\
    Validation.noValidationReport demo_cells
      = Some (negb (Validation.isFromPdbArchive model)) /\
    forall st, is_Some (Validation.actions st demo_cells).
Proof.
  assert (Validation.canEnable (fun _ => true) demo_cells = true) as H1 by reflexivity.
  exact (conj H1 (ValidationFacts.canEnable_noValidationReport _ _ H1)).
Defined.

Lemma actions_enabled_iff_witness :
  let item := {| Validation.label := "RCSB PDB Validation Report";
                 Validation.disabled := false |} in
  Validation.actions demo_state demo_cells = Some item /\
  (Validation.disabled item = false <->
   Validation.label item = "RCSB PDB Validation Report"%string) /\
  (JSSet.has (Validation.errorStates demo_state) Validation.ValidationReportTag = true ->
   Validation.label item = "Failed to Obtain Validation Report"%string /\
   Validation.disabled item = true).
Proof.
  cbv zeta.
  assert (Validation.actions demo_state demo_cells
          = Some {| Validation.label := "RCSB PDB Validation Report";
                    Validation.disabled := false |}) as H1 by reflexivity.
  exact (conj H1 (ValidationFacts.actions_enabled_iff _ _ _ H1)).
Defined.

Lemma requestValidationReportPreset_failure_witness :
  match Validation.pivot demo_cells with
  | Some cell => (fun _ : Validation.Cell => false) cell
  | None => false
  end = false /\
  let st' := Validation.requestValidationReportPreset (fun _ => false) demo_state demo_cells in
  JSSet.has (Validation.errorStates st') Validation.ValidationReportTag = true /\
  Validation.requestValidationReportPreset (fun _ => false) st' demo_cells = st' /\
  match Validation.pivot demo_cells with
  | Some _ =>
      exists item,
        Validation.actions st' demo_cells = Some item /\
        Validation.label item = "Failed to Obtain Validation Report"%string /\
        Validation.disabled item = true
  | None => Validation.actions st' demo_cells = None
  end /\
  (forall structures' descr,
     JSSet.has (Validation.errorStates
                  (Validation.selectionChanged (fun _ => true) st' structures' descr))
               Validation.ValidationReportTag = false).
Proof.
  assert (match Validation.pivot demo_cells with
          | Some cell => (fun _ : Validation.Cell => false) cell
          | None => false
          end = false) as H1 by reflexivity.
  exact (conj H1 (ValidationFacts.requestValidationReportPreset_failure
                    (fun _ => true) (fun _ => false) demo_state demo_cells H1)).
Defined.

Lemma setSettings_renderStyle_round_trip_witness :
  "glossy"%string ∈ ["toon"%string; "matte"%string; "glossy"%string; "metallic"%string] /\
  exists settings,
    GeneralSettings.setSettings demo_props (GeneralSettings.RenderStyle "glossy")
      = Some settings /\
    GeneralSettings.v_renderStyle
      (GeneralSettings.values (GeneralSettings.settled demo_props settings))
      = "glossy"%string /\
    GeneralSettings.v_spin
      (GeneralSettings.values (GeneralSettings.settled demo_props settings))
      = GeneralSettings.v_spin (GeneralSettings.values demo_props) /\
    GeneralSettings.v_backgroundColor
      (GeneralSettings.values (GeneralSettings.settled demo_props settings))
      = GeneralSettings.v_backgroundColor (GeneralSettings.values demo_props) /\
    GeneralSettings.v_occlusion
      (GeneralSettings.values (GeneralSettings.settled demo_props settings))
      = GeneralSettings.v_occlusion (GeneralSettings.values demo_props) /\
    GeneralSettings.trackball (GeneralSettings.settled demo_props settings)
      = GeneralSettings.trackball demo_props /\
    GeneralSettings.renderer_rest
      (GeneralSettings.renderer (GeneralSettings.settled demo_props settings))
      = GeneralSettings.renderer_rest (GeneralSettings.renderer demo_props) /\
    GeneralSettings.postprocessing_rest
      (GeneralSettings.postprocessing (GeneralSettings.settled demo_props settings))
      = GeneralSettings.postprocessing_rest (GeneralSettings.postprocessing demo_props).
Proof.
  assert ("glossy"%string
          ∈ ["toon"%string; "matte"%string; "glossy"%string; "metallic"%string]) as H1
    by (right; right; left).
  exact (conj H1 (GeneralSettingsFacts.setSettings_renderStyle_round_trip demo_props _ H1)).
Defined.

(** * The residue selections are sorted as the host collates *)

Lemma localeHost_collation : CollationLaws localeHost.
Proof.
  split; simpl; unfold locale_compare.
  - intros a b. destruct (String.compare (string_fold a) (string_fold b)); try lia.
    destruct (String.compare b a) eqn:E; try lia.
    intros _. symmetry. by apply String.compare_eq_iff.
  - intros a b.
    rewrite (String.compare_antisym (string_fold a) (string_fold b)).
    rewrite (String.compare_antisym a b).
    destruct (String.compare (string_fold b) (string_fold a)),
      (String.compare b a); simpl; lia.
  - intros a b c.
    assert (forall x y z, String.compare x y = Lt -> String.compare y z = Lt ->
                          String.compare x z = Lt) as Htrans.
    { intros x y z Hxy Hyz. apply String_as_OT.cmp_lt in Hxy, Hyz.
      apply String_as_OT.cmp_lt. by eapply String_as_OT.lt_trans. }
    destruct (String.compare (string_fold a) (string_fold b)) eqn:Eab; try lia;
      destruct (String.compare (string_fold b) (string_fold c)) eqn:Ebc; try lia.
    + apply String.compare_eq_iff in Eab, Ebc. rewrite Eab, Ebc.
      assert (String.compare (string_fold c) (string_fold c) = Eq) as ->.
      { apply String_as_OT.cmp_eq. done. }
      destruct (String.compare b a) eqn:Eba; try lia.
      destruct (String.compare c b) eqn:Ecb; try lia.
      by rewrite (Htrans _ _ _ Ecb Eba).
    + apply String.compare_eq_iff in Eab. rewrite Eab, Ebc. lia.
    + apply String.compare_eq_iff in Ebc. rewrite <- Ebc, Eab. lia.
    + rewrite (Htrans _ _ _ Eab Ebc). lia.
Qed.

(** C1 as stated fails on a host that collates as a locale does.  The
    residues B 2, a 1 and B 1 of one model are picked; the history meets
    what the claim asks of it and is dispatched, with the residue
    selections in the order a 1, B 1, B 2, as [localeCompare] has "a"
    before "B".  By the codes of the letters "B" is before "a", so the
    list is not sorted lexicographically. *)
Lemma submitSearch_not_lexicographic :
  (MIN_MOTIF_SIZE <= length locale_history <= MAX_MOTIF_SIZE)%nat /\
  single_model locale_history /\
  polymeric locale_history /\
  Forall (ready locale_map) locale_history /\
  match submitSearch locale_map locale_history with
  | Opened q =>
      residue_ids (value (parameters q))
      = [ {| rs_label_asym_id := "a"; rs_struct_oper_id := "1"; rs_label_seq_id := 1 |};
          {| rs_label_asym_id := "B"; rs_struct_oper_id := "1"; rs_label_seq_id := 1 |};
          {| rs_label_asym_id := "B"; rs_struct_oper_id := "1"; rs_label_seq_id := 2 |} ] /\
      ~ StronglySorted lexicographic_order (residue_ids (value (parameters q)))
  | _ => False
  end.
Proof.
  split_and!.
  - vm_compute. lia.
  - vm_compute. lia.
  - apply single_modelb_single. vm_compute. reflexivity.
  - apply polymericb_polymeric. vm_compute. reflexivity.
  - apply readyb_ready. vm_compute. reflexivity.
  - set (o := submitSearch locale_map locale_history). vm_compute in o. subst o.
    cbv beta iota. split; [reflexivity |].
    intros Hs. apply StronglySorted_inv in Hs as [_ Hall].
    apply Forall_cons in Hall as [Hab _].
    unfold lexicographic_order, lexicographic_before in Hab. simpl in Hab.
    destruct Hab as [Hlt | [Heq _]]; discriminate.
Qed.
